(** * print_glb_header.py: reading the header of a glB file

    A shallow embedding of [src/3-first-mesh/print_glb_header.py].  The
    script is a straight line of Python: it checks [sys.argv], reads a
    file, unpacks five little-endian 32 bit integers, validates three of
    them and prints the JSON chunk that follows.

    The process is modelled by a small state and exception monad: the
    state records what was printed and which files were opened, an
    exception is either [SystemExit] (raised by [sys.exit]) or one of the
    errors the interpreter raises by itself. *)

From Stdlib Require Import List ZArith NArith Lia Bool String Ascii.
From Stdlib.Strings Require Import Byte.
From Stdlib Require DecimalPos DecimalZ.
Import ListNotations.

Set Warnings "-register-all".

Local Open Scope Z_scope.

(** ** Python built-ins used by the script *)

Module Py.

(** [len(x)] *)
Definition len {A} (l : list A) : Z := Z.of_nat (List.length l).

(** A slice bound [i] of a sequence of length [n], as [PySlice_AdjustIndices]
    does for a step of 1: a negative bound counts from the end, and every
    bound is clamped to [0..n]. *)
Definition adjust_index (n i : Z) : Z :=
  if i <? 0 then Z.max 0 (i + n) else Z.min i n.

(** [l[lo:hi]]: never raises; bounds past the end are clamped. *)
Definition slice {A} (l : list A) (lo hi : Z) : list A :=
  let n := len l in
  let lo' := adjust_index n lo in
  let hi' := adjust_index n hi in
  firstn (Z.to_nat (hi' - lo')) (skipn (Z.to_nat lo') l).

(** [l[i]] for a list or tuple: [None] stands for [IndexError]. *)
Definition getitem {A} (l : list A) (i : Z) : option A :=
  let n := len l in
  let j := if i <? 0 then i + n else i in
  if (0 <=? j) && (j <? n) then nth_error l (Z.to_nat j) else None.

Definition byte_val (b : byte) : Z := Z.of_N (Byte.to_N b).

(** One ["<I"] field: an unsigned 32 bit integer, least significant byte
    first. *)
Definition u32_le (b0 b1 b2 b3 : byte) : Z :=
  Z.lor (byte_val b0)
    (Z.lor (Z.shiftl (byte_val b1) 8)
       (Z.lor (Z.shiftl (byte_val b2) 16) (Z.shiftl (byte_val b3) 24))).

End Py.

(** ** The glB header

    The tuple returned by [struct.unpack("<IIIII", ...)].  The fields are
    named as the comment of the script names them; [header[0]] is [magic],
    [header[1]] is [version], [header[2]] is the [length] of the whole
    file (called [totalLength] here, [length] being the length of lists),
    [header[3]] is [chunkLength] and [header[4]] is [chunkType]. *)
Record header := mkHeader {
  magic : Z;
  version : Z;
  totalLength : Z;
  chunkLength : Z;
  chunkType : Z
}.

(** [struct.unpack("<IIIII", buf)]: the buffer must hold exactly 20 bytes,
    otherwise [struct.error] is raised ([None]). *)
Definition unpack_IIIII (buf : list byte) : option header :=
  match buf with
  | [a0; a1; a2; a3; b0; b1; b2; b3; c0; c1; c2; c3;
     d0; d1; d2; d3; e0; e1; e2; e3] =>
      Some (mkHeader (Py.u32_le a0 a1 a2 a3) (Py.u32_le b0 b1 b2 b3)
              (Py.u32_le c0 c1 c2 c3) (Py.u32_le d0 d1 d2 d3)
              (Py.u32_le e0 e1 e2 e3))
  | _ => None
  end.

(** ** The JSON library

    [json.loads] and [json.dumps] belong to Python's standard library, not
    to the repository.  The script is modelled over any implementation of
    the two calls it makes. *)

(** The two errors [json.loads] raises on a [bytes] argument. *)
Inductive json_error := UnicodeDecodeError | JSONDecodeError.

Class JsonLib := {
  json_value : Type;
  (** [json.loads(b)] for a [bytes] object [b] *)
  json_loads : list byte -> json_error + json_value;
  (** [json.dumps(v, indent=n)] *)
  json_dumps : json_value -> nat -> string
}.

(** ** The process *)

(** Exceptions that reach the top level of the script. *)
Inductive exn :=
| SystemExit (code : Z)
| IndexError
| OSError (path : string)
| StructError
| JsonError (e : json_error).

(** What the script did to the outside: the lines written by [print], in
    order, and the paths given to [open], in order. *)
Record world := mkWorld {
  stdout : list string;
  opened : list string
}.

Definition M (A : Type) : Type := world -> (exn + A) * world.

Definition ret {A} (a : A) : M A := fun w => (inr a, w).

Definition bind {A B} (m : M A) (k : A -> M B) : M B :=
  fun w =>
    match m w with
    | (inl e, w') => (inl e, w')
    | (inr a, w') => k a w'
    end.

Definition raise {A} (e : exn) : M A := fun w => (inl e, w).

Declare Scope py_scope.
Delimit Scope py_scope with py.
Notation "x <- m ;; k" := (bind m (fun x => k))
  (at level 61, m at next level, right associativity) : py_scope.
Notation "m ;; k" := (bind m (fun _ => k))
  (at level 61, right associativity) : py_scope.

(** [print(s)]: one line on standard output. *)
Definition print (s : string) : M unit :=
  fun w => (inr tt, mkWorld (stdout w ++ [s]) (opened w)).

(** [sys.exit(code)] *)
Definition sys_exit {A} (code : Z) : M A := raise (SystemExit code).

(** [if c: body]: a statement guarded by a condition. *)
Definition when (c : bool) (body : M unit) : M unit :=
  if c then body else ret tt.

(** The file system is a read-only map from paths to contents. *)
Definition filesystem := string -> option (list byte).

(** [with open(path, "rb") as f: content = f.read()] *)
Definition open_read (fs : filesystem) (path : string) : M (list byte) :=
  fun w =>
    let w' := mkWorld (stdout w) (opened w ++ [path]) in
    match fs path with
    | Some content => (inr content, w')
    | None => (inl (OSError path), w')
    end.

Definition lift_option {A} (e : exn) (o : option A) : M A :=
  match o with
  | Some a => ret a
  | None => raise e
  end.

Definition lift_json {A} (r : json_error + A) : M A :=
  match r with
  | inr a => ret a
  | inl e => raise (JsonError e)
  end.

Definition msg_usage : string := "Usage: ./print_glb_header.py <file.glb>".
Definition msg_magic : string :=
  "The provided file does not appear to be a glB file".
Definition msg_version : string := "The provided file is not glTF version 2".
Definition msg_chunk : string :=
  "Invalid glB: The first chunk of the glB file is not a JSON chunk!".

Section Script.

Context {lib : JsonLib}.
Variable fs : filesystem.

Local Open Scope py_scope.

(** Lines 22 to 36: the body of the [with] block, once [content] is read. *)
Definition read_header (content : list byte) : M unit :=
  header <- lift_option StructError (unpack_IIIII (Py.slice content 0 20)) ;;
  when (negb (magic header =? 0x46546C67))
    (print msg_magic ;; sys_exit 1) ;;
  when (negb (version header =? 2))
    (print msg_version ;; sys_exit 1) ;;
  when (negb (chunkType header =? 0x4E4F534A))
    (print msg_chunk ;; sys_exit 1) ;;
  jsonChunk <- lift_json (json_loads (Py.slice content 20 (20 + chunkLength header))) ;;
  print (json_dumps jsonChunk 2).

(** The whole script, lines 7 to 36; [argv] is [sys.argv]. *)
Definition script (argv : list string) : M unit :=
  when (Py.len argv =? 1)
    (print msg_usage ;; sys_exit 1) ;;
  glbFile <- lift_option IndexError (Py.getitem argv 1) ;;
  content <- open_read fs glbFile ;;
  read_header content.

End Script.

(** How the process ended: [sys.exit(code)] or the end of the script
    ([Exit]), or an exception nobody caught ([Uncaught]: the interpreter
    prints a traceback on standard error). *)
Inductive termination :=
| Exit (code : Z)
| Uncaught (e : exn).

Record result := mkResult {
  res_end : termination;
  res_stdout : list string;
  res_opened : list string
}.

Definition finish (r : (exn + unit) * world) : result :=
  let (o, w) := r in
  mkResult
    (match o with
     | inr _ => Exit 0
     | inl (SystemExit c) => Exit c
     | inl e => Uncaught e
     end) (stdout w) (opened w).

(** The exit status the operating system sees. *)
Definition exit_status (t : termination) : Z :=
  match t with
  | Exit c => c
  | Uncaught _ => 1
  end.

Definition run {lib : JsonLib} (fs : filesystem) (argv : list string) : result :=
  finish (script fs argv (mkWorld [] [])).

(** The ways the script ends. *)
Inductive outcome {lib : JsonLib} : result -> Prop :=
| O_usage : outcome (mkResult (Exit 1) [msg_usage] [])
| O_open path : outcome (mkResult (Uncaught (OSError path)) [] [path])
| O_short path : outcome (mkResult (Uncaught StructError) [] [path])
| O_magic path : outcome (mkResult (Exit 1) [msg_magic] [path])
| O_version path : outcome (mkResult (Exit 1) [msg_version] [path])
| O_chunk path : outcome (mkResult (Exit 1) [msg_chunk] [path])
| O_json path e : outcome (mkResult (Uncaught (JsonError e)) [] [path])
| O_printed path v : outcome (mkResult (Exit 0) [json_dumps v 2] [path]).

(** The bytes of [content] at the offsets [lo <= i < hi], as far as the
    file has them. *)
Definition byte_range (content : list byte) (lo hi : Z) : list byte :=
  firstn (Z.to_nat (hi - lo)) (skipn (Z.to_nat lo) content).

(** ** A model of the JSON library

    Modelled from the spec: Python's [json] module is not among the
    sources of the repository.  The spec asks for the chunk to be decoded
    as UTF-8 text and parsed as JSON, and for the value to be printed with
    an indentation of two spaces.  The model below follows the grammar of
    JSON and, where the spec is silent, the conventions of [json.loads] and
    [json.dumps(..., indent=2)]: the item separator is a comma followed by
    a line break, the key separator is a colon and a space, text outside
    printable ASCII is written as [\uXXXX] escapes, and the constants
    [NaN], [Infinity] and [-Infinity] are read and written.  The input is
    UTF-8 as the spec has it: the detection of UTF-16 and UTF-32 input and
    of a byte order mark is not modelled, nor are the limit on the depth
    of nesting and the limit on the number of digits of an integer. *)

Module PyJson.

Local Open Scope N_scope.

(** A Python [str] is a sequence of code points. *)
Definition pystr := list N.

(** The code points of an ASCII literal. *)
Definition lit (s : string) : pystr := map N_of_ascii (list_ascii_of_string s).

(** *** Floating point numbers

    Binary floating point is kept abstract: the model needs the conversion
    from a literal ([float(text)]), the conversion to text
    ([float.__repr__]) and the three tests [floatstr] makes. *)

Inductive float_class := FNaN | FPosInf | FNegInf | FFinite.

Class PyFloat := {
  float : Type;
  float_of_literal : pystr -> float;
  float_repr : float -> pystr;
  float_classify : float -> float_class;
  float_nan : float;
  float_inf : float;
  float_neginf : float
}.

Section Values.

Context {F : PyFloat}.

(** What [json.loads] returns: [None], [True] or [False], an [int], a
    [float], a [str], a [list], or a [dict] (its items in insertion
    order). *)
Inductive value :=
| PyNone
| PyBool (b : bool)
| PyInt (z : Z)
| PyFloat_ (f : float)
| PyStr (s : pystr)
| PyList (l : list value)
| PyDict (d : list (pystr * value)).

(** *** Decoding UTF-8 *)

Definition is_cont (b : N) : bool := (0x80 <=? b) && (b <=? 0xBF).

Definition is_surrogate (c : N) : bool := (0xD800 <=? c) && (c <=? 0xDFFF).

Definition push {A} (c : N) (r : option (pystr * A)) : option (pystr * A) :=
  match r with
  | Some (s, a) => Some (c :: s, a)
  | None => None
  end.

Definition cons_opt (c : N) (r : option pystr) : option pystr :=
  match r with
  | Some s => Some (c :: s)
  | None => None
  end.

(** [bytes.decode("utf-8")] on the values of the bytes: shortest forms
    only, no surrogates, nothing above U+10FFFF. *)
Fixpoint utf8_decode (bs : list N) : option pystr :=
  match bs with
  | [] => Some []
  | b0 :: r =>
    if b0 <? 0x80 then cons_opt b0 (utf8_decode r)
    else if b0 <? 0xC0 then None
    else if b0 <? 0xE0 then
      match r with
      | b1 :: r1 =>
        let c := (b0 - 0xC0) * 64 + (b1 - 0x80) in
        if is_cont b1 && (0x80 <=? c) then cons_opt c (utf8_decode r1)
        else None
      | _ => None
      end
    else if b0 <? 0xF0 then
      match r with
      | b1 :: b2 :: r2 =>
        let c := ((b0 - 0xE0) * 64 + (b1 - 0x80)) * 64 + (b2 - 0x80) in
        if is_cont b1 && is_cont b2 && (0x800 <=? c) && negb (is_surrogate c)
        then cons_opt c (utf8_decode r2)
        else None
      | _ => None
      end
    else if b0 <? 0xF8 then
      match r with
      | b1 :: b2 :: b3 :: r3 =>
        let c := (((b0 - 0xF0) * 64 + (b1 - 0x80)) * 64 + (b2 - 0x80)) * 64
                 + (b3 - 0x80) in
        if is_cont b1 && is_cont b2 && is_cont b3
           && (0x10000 <=? c) && (c <? 0x110000)
        then cons_opt c (utf8_decode r3)
        else None
      | _ => None
      end
    else None
  end.

(** *** The scanner *)

Definition is_ws (c : N) : bool :=
  (c =? 32) || (c =? 9) || (c =? 10) || (c =? 13).

(** [WHITESPACE.match(s, idx).end()] *)
Fixpoint skip_ws (s : pystr) : pystr :=
  match s with
  | c :: r => if is_ws c then skip_ws r else s
  | [] => []
  end.

(** [s[idx:idx + len(p)] == p], giving what follows. *)
Fixpoint strip_prefix (p s : pystr) : option pystr :=
  match p with
  | [] => Some s
  | a :: p' =>
    match s with
    | b :: s' => if a =? b then strip_prefix p' s' else None
    | [] => None
    end
  end.

(** **** Strings *)

Definition is_digit (c : N) : bool := (48 <=? c) && (c <=? 57).

Definition hexval (c : N) : option N :=
  if is_digit c then Some (c - 48)
  else if (97 <=? c) && (c <=? 102) then Some (c - 87)
  else if (65 <=? c) && (c <=? 70) then Some (c - 55)
  else None.

(** [_decode_uXXXX]: four hexadecimal digits. *)
Definition decode_uXXXX (h1 h2 h3 h4 : N) : option N :=
  match hexval h1, hexval h2, hexval h3, hexval h4 with
  | Some a, Some b, Some c, Some d => Some (((a * 16 + b) * 16 + c) * 16 + d)
  | _, _, _, _ => None
  end.

(** The table [BACKSLASH]. *)
Definition BACKSLASH (c : N) : option N :=
  if c =? 34 then Some 34           (* the double quote *)
  else if c =? 92 then Some 92      (* the backslash *)
  else if c =? 47 then Some 47      (* / *)
  else if c =? 98 then Some 8       (* b *)
  else if c =? 102 then Some 12     (* f *)
  else if c =? 110 then Some 10     (* n *)
  else if c =? 114 then Some 13     (* r *)
  else if c =? 116 then Some 9      (* t *)
  else None.

Definition is_high (c : N) : bool := (0xD800 <=? c) && (c <=? 0xDBFF).
Definition is_low (c : N) : bool := (0xDC00 <=? c) && (c <=? 0xDFFF).

Definition join_surrogates (uni uni2 : N) : N :=
  0x10000 + N.lor (N.shiftl (uni - 0xD800) 10) (uni2 - 0xDC00).

(** [scanstring(s, end, strict=True)], started after the opening quote:
    the string and what follows its closing quote. *)
Fixpoint scanstring (s : pystr) : option (pystr * pystr) :=
  match s with
  | [] => None
  | c :: r =>
    if c =? 34 then Some ([], r)
    else if c =? 92 then
      match r with
      | [] => None
      | esc :: r1 =>
        if esc =? 117 then
          match r1 with
          | h1 :: h2 :: h3 :: h4 :: r2 =>
            match decode_uXXXX h1 h2 h3 h4 with
            | None => None
            | Some uni =>
              if is_high uni then
                match r2 with
                | b :: u :: r3 =>
                  if (b =? 92) && (u =? 117) then
                    match r3 with
                    | k1 :: k2 :: k3 :: k4 :: r4 =>
                      match decode_uXXXX k1 k2 k3 k4 with
                      | None => None
                      | Some uni2 =>
                        if is_low uni2
                        then push (join_surrogates uni uni2) (scanstring r4)
                        else push uni (scanstring r2)
                      end
                    | _ => None
                    end
                  else push uni (scanstring r2)
                | _ => push uni (scanstring r2)
                end
              else push uni (scanstring r2)
            end
          | _ => None
          end
        else
          match BACKSLASH esc with
          | Some ch => push ch (scanstring r1)
          | None => None
          end
      end
    else if c <? 32 then None
    else push c (scanstring r)
  end.

(** **** Numbers *)

Fixpoint span_digits (s : pystr) : pystr * pystr :=
  match s with
  | c :: r =>
    if is_digit c then let (d, r') := span_digits r in (c :: d, r')
    else ([], s)
  | [] => ([], [])
  end.

(** The group [integer]: an optional minus sign, then [0] alone or a digit
    from 1 to 9 followed by digits. *)
Definition match_integer (s : pystr) : option (pystr * pystr) :=
  let (sign, s1) :=
    match s with
    | c :: r => if c =? 45 then ([45], r) else ([], s)
    | [] => ([], s)
    end in
  match s1 with
  | c :: r =>
    if c =? 48 then Some (sign ++ [48], r)
    else if is_digit c then
      let (d, r') := span_digits r in Some (sign ++ c :: d, r')
    else None
  | [] => None
  end.

(** The group [frac]: a dot and at least one digit, or nothing. *)
Definition match_frac (s : pystr) : pystr * pystr :=
  match s with
  | c :: r =>
    if c =? 46 then
      match span_digits r with
      | ([], _) => ([], s)
      | (d, r') => (46 :: d, r')
      end
    else ([], s)
  | [] => ([], s)
  end.

(** The group [exp]: [e] or [E], an optional sign and at least one digit,
    or nothing. *)
Definition match_exp (s : pystr) : pystr * pystr :=
  match s with
  | c :: r =>
    if (c =? 101) || (c =? 69) then
      let (sign, r1) :=
        match r with
        | c1 :: r1 => if (c1 =? 45) || (c1 =? 43) then ([c1], r1) else ([], r)
        | [] => ([], r)
        end in
      match span_digits r1 with
      | ([], _) => ([], s)
      | (d, r') => (c :: sign ++ d, r')
      end
    else ([], s)
  | [] => ([], s)
  end.

(** [NUMBER_RE.match]: the groups [integer], [frac] and [exp], and what
    follows the match. *)
Definition match_number (s : pystr) : option (pystr * pystr * pystr * pystr) :=
  match match_integer s with
  | None => None
  | Some (integer, r) =>
    let (frac, r1) := match_frac r in
    let (exp, r2) := match_exp r1 in
    Some (integer, frac, exp, r2)
  end.

Definition digit_of_char (c : N) (u : Decimal.uint) : Decimal.uint :=
  if c =? 48 then Decimal.D0 u else if c =? 49 then Decimal.D1 u
  else if c =? 50 then Decimal.D2 u else if c =? 51 then Decimal.D3 u
  else if c =? 52 then Decimal.D4 u else if c =? 53 then Decimal.D5 u
  else if c =? 54 then Decimal.D6 u else if c =? 55 then Decimal.D7 u
  else if c =? 56 then Decimal.D8 u else Decimal.D9 u.

Fixpoint uint_of_digits (s : pystr) : Decimal.uint :=
  match s with
  | [] => Decimal.Nil
  | c :: r => digit_of_char c (uint_of_digits r)
  end.

(** [int(text)] for a text matched by the group [integer]. *)
Definition parse_int (text : pystr) : Z :=
  match text with
  | c :: r =>
    if c =? 45 then Z.of_int (Decimal.Neg (uint_of_digits r))
    else Z.of_int (Decimal.Pos (uint_of_digits text))
  | [] => 0%Z
  end.

(** **** Values *)

Fixpoint pystr_eqb (a b : pystr) : bool :=
  match a, b with
  | [], [] => true
  | x :: a', y :: b' => (x =? y) && pystr_eqb a' b'
  | _, _ => false
  end.

(** [d[k] = v] on the items of a dict: a key that is present keeps its
    place. *)
Fixpoint dict_set (d : list (pystr * value)) (k : pystr) (v : value)
  : list (pystr * value) :=
  match d with
  | [] => [(k, v)]
  | (k', v') :: d' =>
    if pystr_eqb k k' then (k', v) :: d' else (k', v') :: dict_set d' k v
  end.

(** [dict(pairs)] *)
Definition dict_of_pairs (pairs : list (pystr * value)) : list (pystr * value) :=
  fold_left (fun d kv => dict_set d (fst kv) (snd kv)) pairs [].

Definition number_value (integer frac exp : pystr) : value :=
  match frac, exp with
  | [], [] => PyInt (parse_int integer)
  | _, _ => PyFloat_ (float_of_literal (integer ++ frac ++ exp))
  end.

(** [scan_once], [JSONArray] and [JSONObject].  The recursion of the
    library is bounded here by [fuel]; every call consumes at least one
    character, so the length of the text is always enough. *)
Fixpoint scan_once (fuel : nat) (s : pystr) {struct fuel}
  : option (value * pystr) :=
  match fuel with
  | O => None
  | S fuel' =>
    match s with
    | [] => None
    | c :: r =>
      if c =? 34 then
        match scanstring r with
        | Some (str, r') => Some (PyStr str, r')
        | None => None
        end
      else if c =? 123 then
        match skip_ws r with
        | c' :: r' =>
          if c' =? 125 then Some (PyDict [], r')
          else if c' =? 34 then
            match JSONObject fuel' r' with
            | Some (pairs, r'') => Some (PyDict (dict_of_pairs pairs), r'')
            | None => None
            end
          else None
        | [] => None
        end
      else if c =? 91 then
        match skip_ws r with
        | c' :: r' =>
          if c' =? 93 then Some (PyList [], r')
          else
            match JSONArray fuel' (c' :: r') with
            | Some (values, r'') => Some (PyList values, r'')
            | None => None
            end
        | [] => None
        end
      else
        match strip_prefix (lit "null") s with
        | Some r' => Some (PyNone, r')
        | None =>
        match strip_prefix (lit "true") s with
        | Some r' => Some (PyBool true, r')
        | None =>
        match strip_prefix (lit "false") s with
        | Some r' => Some (PyBool false, r')
        | None =>
        match match_number s with
        | Some (integer, frac, exp, r') =>
            Some (number_value integer frac exp, r')
        | None =>
        match strip_prefix (lit "NaN") s with
        | Some r' => Some (PyFloat_ float_nan, r')
        | None =>
        match strip_prefix (lit "Infinity") s with
        | Some r' => Some (PyFloat_ float_inf, r')
        | None =>
        match strip_prefix (lit "-Infinity") s with
        | Some r' => Some (PyFloat_ float_neginf, r')
        | None => None
        end end end end end end end
    end
  end

(** The loop of [JSONArray]: [s] starts at a value. *)
with JSONArray (fuel : nat) (s : pystr) {struct fuel}
  : option (list value * pystr) :=
  match fuel with
  | O => None
  | S fuel' =>
    match scan_once fuel' s with
    | None => None
    | Some (v, r) =>
      match skip_ws r with
      | c :: r' =>
        if c =? 93 then Some ([v], r')
        else if c =? 44 then
          match JSONArray fuel' (skip_ws r') with
          | Some (values, r'') => Some (v :: values, r'')
          | None => None
          end
        else None
      | [] => None
      end
    end
  end

(** The loop of [JSONObject]: [s] starts after the opening quote of a
    key. *)
with JSONObject (fuel : nat) (s : pystr) {struct fuel}
  : option (list (pystr * value) * pystr) :=
  match fuel with
  | O => None
  | S fuel' =>
    match scanstring s with
    | None => None
    | Some (key, r) =>
      match skip_ws r with
      | c :: r1 =>
        if c =? 58 then
          match scan_once fuel' (skip_ws r1) with
          | None => None
          | Some (v, r2) =>
            match skip_ws r2 with
            | c2 :: r3 =>
              if c2 =? 125 then Some ([(key, v)], r3)
              else if c2 =? 44 then
                match skip_ws r3 with
                | c3 :: r4 =>
                  if c3 =? 34 then
                    match JSONObject fuel' r4 with
                    | Some (pairs, r5) => Some ((key, v) :: pairs, r5)
                    | None => None
                    end
                  else None
                | [] => None
                end
              else None
            | [] => None
            end
          end
        else None
      | [] => None
      end
    end
  end.

(** [JSONDecoder.decode]: one value, white space around it, nothing
    else. *)
Definition decode (s : pystr) : option value :=
  match scan_once (S (List.length s)) (skip_ws s) with
  | Some (v, r) =>
    match skip_ws r with
    | [] => Some v
    | _ :: _ => None
    end
  | None => None
  end.

(** [json.loads] on a [bytes] object. *)
Definition loads (b : list byte) : json_error + value :=
  match utf8_decode (map Byte.to_N b) with
  | None => inl UnicodeDecodeError
  | Some s =>
    match decode s with
    | Some v => inr v
    | None => inl JSONDecodeError
    end
  end.

(** *** The encoder *)

Definition hexdigit (n : N) : N := if n <? 10 then 48 + n else 87 + n.

(** ['{0:04x}'.format(n)] for [n] below [0x10000]. *)
Definition hex4 (n : N) : pystr :=
  [hexdigit (n / 4096 mod 16); hexdigit (n / 256 mod 16);
   hexdigit (n / 16 mod 16); hexdigit (n mod 16)].

(** What [encode_basestring_ascii] writes for one code point: the short
    escapes of [ESCAPE_DCT], printable ASCII as it is, and [\uXXXX] for the
    rest, a surrogate pair above the basic plane. *)
Definition escape (c : N) : pystr :=
  if c =? 34 then [92; 34]
  else if c =? 92 then [92; 92]
  else if c =? 10 then [92; 110]
  else if c =? 13 then [92; 114]
  else if c =? 9 then [92; 116]
  else if c =? 12 then [92; 102]
  else if c =? 8 then [92; 98]
  else if (32 <=? c) && (c <=? 126) then [c]
  else if c <? 0x10000 then 92 :: 117 :: hex4 c
  else
    let n := c - 0x10000 in
    let s1 := N.lor 0xD800 (N.land (N.shiftr n 10) 0x3FF) in
    let s2 := N.lor 0xDC00 (N.land n 0x3FF) in
    (92 :: 117 :: hex4 s1) ++ (92 :: 117 :: hex4 s2).

Definition encode_basestring_ascii (s : pystr) : pystr :=
  34 :: flat_map escape s ++ [34].

Fixpoint digits_of_uint (u : Decimal.uint) : pystr :=
  match u with
  | Decimal.Nil => []
  | Decimal.D0 u' => 48 :: digits_of_uint u'
  | Decimal.D1 u' => 49 :: digits_of_uint u'
  | Decimal.D2 u' => 50 :: digits_of_uint u'
  | Decimal.D3 u' => 51 :: digits_of_uint u'
  | Decimal.D4 u' => 52 :: digits_of_uint u'
  | Decimal.D5 u' => 53 :: digits_of_uint u'
  | Decimal.D6 u' => 54 :: digits_of_uint u'
  | Decimal.D7 u' => 55 :: digits_of_uint u'
  | Decimal.D8 u' => 56 :: digits_of_uint u'
  | Decimal.D9 u' => 57 :: digits_of_uint u'
  end.

(** [int.__repr__] *)
Definition int_repr (z : Z) : pystr :=
  match Z.to_int z with
  | Decimal.Pos u => digits_of_uint u
  | Decimal.Neg u => 45 :: digits_of_uint u
  end.

(** [floatstr] with [allow_nan=True] *)
Definition floatstr (f : float) : pystr :=
  match float_classify f with
  | FNaN => lit "NaN"
  | FPosInf => lit "Infinity"
  | FNegInf => lit "-Infinity"
  | FFinite => float_repr f
  end.

(** ['\n' + indent * level] for an indent of [indent] spaces. *)
Definition newline_indent (indent level : nat) : pystr :=
  10 :: repeat 32 (indent * level)%nat.

(** The loop shared by [_iterencode_list] and [_iterencode_dict]: the
    separator is written before every item but the first. *)
Definition encode_items {A} (enc : A -> pystr) (separator : pystr)
  : bool -> list A -> pystr :=
  fix go (first : bool) (l : list A) : pystr :=
    match l with
    | [] => []
    | x :: l' => (if first then [] else separator) ++ enc x ++ go false l'
    end.

(** [_iterencode(o, level)] with [indent] spaces per level, the item
    separator [','] and the key separator [': ']. *)
Fixpoint iterencode (indent level : nat) (o : value) : pystr :=
  match o with
  | PyStr s => encode_basestring_ascii s
  | PyNone => lit "null"
  | PyBool true => lit "true"
  | PyBool false => lit "false"
  | PyInt z => int_repr z
  | PyFloat_ f => floatstr f
  | PyList [] => lit "[]"
  | PyList l =>
    let nl := newline_indent indent (S level) in
    (91 :: nl)
    ++ encode_items (iterencode indent (S level)) (44 :: nl) true l
    ++ newline_indent indent level ++ [93]
  | PyDict [] => lit "{}"
  | PyDict d =>
    let nl := newline_indent indent (S level) in
    (123 :: nl)
    ++ encode_items
         (fun kv : pystr * value => let (k, v) := kv in
            encode_basestring_ascii k ++ [58; 32]
            ++ iterencode indent (S level) v)
         (44 :: nl) true d
    ++ newline_indent indent level ++ [125]
  end.

(** The text as the bytes [print] writes: the encoder only produces
    ASCII. *)
Definition to_string (s : pystr) : string :=
  string_of_list_ascii (map ascii_of_N s).

(** [json.dumps(o, indent=indent)] *)
Definition dumps (o : value) (indent : nat) : string :=
  to_string (iterencode indent 0 o).

(** *** Values of the model that Python can hold

    The code points of a [str] are below [0x110000], and the keys of a
    [dict] are pairwise different.  A [str] is moreover required not to
    split a surrogate pair in two code points: text decoded from UTF-8
    never does. *)

Fixpoint no_split_pair (s : pystr) : bool :=
  match s with
  | c :: r =>
    match r with
    | c' :: _ => negb (is_high c && is_low c') && no_split_pair r
    | [] => true
    end
  | [] => true
  end.

Definition valid_str (s : pystr) : bool :=
  forallb (fun c => c <? 0x110000) s && no_split_pair s.

Fixpoint keys_unique (keys : list pystr) : bool :=
  match keys with
  | [] => true
  | k :: r => negb (existsb (pystr_eqb k) r) && keys_unique r
  end.

Fixpoint valid (o : value) : bool :=
  match o with
  | PyStr s => valid_str s
  | PyList l => forallb valid l
  | PyDict d =>
    keys_unique (map fst d)
    && forallb (fun kv : pystr * value =>
                 let (k, v) := kv in valid_str k && valid v) d
  | _ => true
  end.

(** Reading back what [floatstr] wrote gives the float itself, except that
    every NaN is read as [float_nan] and the infinities as [float_inf] and
    [float_neginf]. *)
Definition canon_float (f : float) : float :=
  match float_classify f with
  | FNaN => float_nan
  | FPosInf => float_inf
  | FNegInf => float_neginf
  | FFinite => f
  end.

Fixpoint canon (o : value) : value :=
  match o with
  | PyFloat_ f => PyFloat_ (canon_float f)
  | PyList l => PyList (map canon l)
  | PyDict d => PyDict (map (fun kv : pystr * value =>
                        let (k, v) := kv in (k, canon v)) d)
  | _ => o
  end.

(** *** What the model asks of the floats

    [float.__repr__] of a finite float is a JSON number with a fraction or
    an exponent, and [float] reads it back to the same float. *)

Definition is_float_literal (s : pystr) : bool :=
  match match_number s with
  | Some (_, frac, exp, []) =>
    match frac, exp with
    | [], [] => false
    | _, _ => true
    end
  | _ => false
  end.

Record PyFloatLaws : Prop := {
  classify_nan : float_classify float_nan = FNaN;
  classify_inf : float_classify float_inf = FPosInf;
  classify_neginf : float_classify float_neginf = FNegInf;
  repr_literal : forall f,
    float_classify f = FFinite -> is_float_literal (float_repr f) = true;
  repr_roundtrip : forall f,
    float_classify f = FFinite -> float_of_literal (float_repr f) = f
}.

(** *** Notions used to state the properties of the model *)

(** What [scanstring] does after the escape of a high surrogate [uni]. *)
Definition lookahead (uni : N) (r2 : pystr) : option (pystr * pystr) :=
  match r2 with
  | b :: u :: r3 =>
    if (b =? 92) && (u =? 117) then
      match r3 with
      | k1 :: k2 :: k3 :: k4 :: r4 =>
        match decode_uXXXX k1 k2 k3 k4 with
        | None => None
        | Some uni2 =>
          if is_low uni2
          then push (join_surrogates uni uni2) (scanstring r4)
          else push uni (scanstring r2)
        end
      | _ => None
      end
    else push uni (scanstring r2)
  | _ => push uni (scanstring r2)
  end.

(** The shapes of [escape c]. *)
Inductive escape_shape (c : N) : pystr -> Prop :=
| ES_short x : BACKSLASH x = Some c -> x <> 117 -> escape_shape c [92; x]
| ES_plain : 32 <= c -> c <> 34 -> c <> 92 -> escape_shape c [c]
| ES_u : c < 0x10000 -> escape_shape c (92 :: 117 :: hex4 c)
| ES_pair s1 s2 :
    is_high s1 = true -> is_low s1 = false -> s1 < 0x10000 ->
    is_low s2 = true -> s2 < 0x10000 -> join_surrogates s1 s2 = c ->
    escape_shape c ((92 :: 117 :: hex4 s1) ++ (92 :: 117 :: hex4 s2)).

(** What follows a value in the output of the encoder: nothing, a comma or
    a line break. *)
Definition value_end (rest : pystr) : bool :=
  match rest with
  | [] => true
  | c :: _ => (c =? 44) || (c =? 10)
  end.

(** Text that does not start with a digit. *)
Definition nondigit_start (rest : pystr) : bool :=
  match rest with
  | [] => true
  | c :: _ => negb (is_digit c)
  end.

(** A code point of ASCII: the encoder writes no other. *)
Definition is_ascii (c : N) : bool := c <? 128.

(** A code point that UTF-8 can encode: no surrogate, nothing above
    U+10FFFF. *)
Definition is_scalar (c : N) : bool := (c <? 0x110000) && negb (is_surrogate c).

(** The text starts with the escape of a low surrogate. *)
Definition starts_low (s : pystr) : bool :=
  match s with
  | b :: u :: k1 :: k2 :: k3 :: k4 :: _ =>
    (b =? 92) && (u =? 117)
    && match decode_uXXXX k1 k2 k3 k4 with
       | Some uni => is_low uni
       | None => false
       end
  | _ => false
  end.

(** The text does not start with a low surrogate. *)
Definition head_not_low (s : pystr) : bool :=
  match s with
  | c :: _ => negb (is_low c)
  | [] => true
  end.

(** What [scanstring] returns, on text decoded from UTF-8. *)
Definition scanned_ok (s str r : pystr) : Prop :=
  valid_str str = true /\ forallb is_scalar r = true
  /\ (starts_low s = false -> head_not_low str = true).

(** A bound on the recursion depth [scan_once] needs to read a value. *)
Fixpoint size (o : value) : nat :=
  match o with
  | PyList l => S (fold_right (fun x n => S (size x + n)) 0%nat l)
  | PyDict d =>
    S (fold_right (fun (kv : pystr * value) n => S (size (snd kv) + n)) 0%nat d)
  | _ => 1%nat
  end.

(** The same bound for the items of a list and of a dict. *)
Definition items_size (l : list (value)) : nat :=
  fold_right (fun x n => S (size x + n)) 0%nat l.

Definition pairs_size (d : list (pystr * value)) : nat :=
  fold_right (fun (kv : pystr * value) n => S (size (snd kv) + n)) 0%nat d.

(** One item of a dict as [_iterencode_dict] writes it, its canonical form
    and its validity. *)
Definition encode_pair (indent level : nat) (kv : pystr * value) : pystr :=
  let (k, v) := kv in
  encode_basestring_ascii k ++ [58; 32] ++ iterencode indent (S level) v.

Definition canon_pair (kv : pystr * value) : pystr * value :=
  let (k, v) := kv in (k, canon v).

Definition valid_pair (kv : pystr * value) : bool :=
  let (k, v) := kv in valid_str k && valid v.

(** What the induction provides for a value. *)
Definition reads_back (indent : nat) (o : value) : Prop :=
  valid o = true ->
  forall level fuel rest,
    (size o <= fuel)%nat -> value_end rest = true ->
    scan_once fuel (iterencode indent level o ++ rest) = Some (canon o, rest).

(** The three functions of the scanner, for one amount of fuel. *)
Definition scans_valid (fuel : nat) : Prop :=
  (forall s v r, forallb is_scalar s = true ->
     scan_once fuel s = Some (v, r) ->
     valid v = true /\ forallb is_scalar r = true)
  /\ (forall s vs r, forallb is_scalar s = true ->
        JSONArray fuel s = Some (vs, r) ->
        forallb valid vs = true /\ forallb is_scalar r = true)
  /\ (forall s ps r, forallb is_scalar s = true ->
        JSONObject fuel s = Some (ps, r) ->
        forallb valid_pair ps = true /\ forallb is_scalar r = true).

(** With more fuel than characters read, the scanner gives the same
    result. *)
Definition fuel_enough (fuel : nat) : Prop :=
  (forall s (v : value) r, scan_once fuel s = Some (v, r) ->
     (List.length r < List.length s)%nat
     /\ forall fuel', (List.length s - List.length r <= fuel')%nat ->
          scan_once fuel' s = Some (v, r))
  /\ (forall s (vs : list value) r, JSONArray fuel s = Some (vs, r) ->
        (List.length r < List.length s)%nat
        /\ forall fuel', (List.length s - List.length r <= fuel')%nat ->
             JSONArray fuel' s = Some (vs, r))
  /\ (forall s (ps : list (pystr * value)) r, JSONObject fuel s = Some (ps, r) ->
        (List.length r < List.length s)%nat
        /\ forall fuel', (List.length s - List.length r <= fuel')%nat ->
             JSONObject fuel' s = Some (ps, r)).

End Values.

Arguments value : clear implicits.
Arguments PyFloatLaws : clear implicits.

(** The model as an implementation of the two calls of the script. *)
Definition lib (F : PyFloat) : JsonLib :=
  {| json_value := value F; json_loads := loads; json_dumps := dumps |}.

(** *** Floats that are whole numbers

    A small implementation of the floats, enough to run the model: the
    finite floats are the integers, written with a fraction of [.0]; a
    literal is read by its integer part. *)

Inductive zfloat := ZNaN | ZInf | ZNegInf | ZFin (z : Z).

Definition zfloat_of_literal (text : pystr) : zfloat :=
  match match_integer text with
  | Some (integer, _) => ZFin (parse_int integer)
  | None => ZNaN
  end.

Definition zfloat_repr (f : zfloat) : pystr :=
  match f with
  | ZFin z => int_repr z ++ [46; 48]
  | ZNaN => lit "nan"
  | ZInf => lit "inf"
  | ZNegInf => lit "-inf"
  end.

Definition zfloat_classify (f : zfloat) : float_class :=
  match f with
  | ZNaN => FNaN
  | ZInf => FPosInf
  | ZNegInf => FNegInf
  | ZFin _ => FFinite
  end.

Definition ZFloat : PyFloat :=
  {| float := zfloat;
     float_of_literal := zfloat_of_literal;
     float_repr := zfloat_repr;
     float_classify := zfloat_classify;
     float_nan := ZNaN;
     float_inf := ZInf;
     float_neginf := ZNegInf |}.

End PyJson.

(** ** Notions used to state further properties *)

(** The bytes the three checks of the script look for: the letters [glTF],
    the number 2 on four bytes, least significant first, and the letters
    [JSON]. *)
Definition tag_magic : list byte := list_byte_of_string "glTF".
Definition tag_version : list byte := [x02; x00; x00; x00].
Definition tag_chunk : list byte := list_byte_of_string "JSON".

(** A byte of white space: a space, a tab, a line feed or a carriage
    return. *)
Definition is_ws_byte (b : byte) : bool := PyJson.is_ws (Byte.to_N b).

(** A line of output that holds ASCII only. *)
Definition ascii_text (s : string) : bool :=
  forallb (fun b => (Byte.to_N b <? 128)%N) (list_byte_of_string s).

(** Text after which a number cannot go on: it does not start with a
    digit, a dot, an exponent mark or a sign. *)
Definition number_stop (t : PyJson.pystr) : bool :=
  match t with
  | [] => true
  | c :: _ =>
    negb (PyJson.is_digit c || (c =? 46) || (c =? 101) || (c =? 69)
          || (c =? 43) || (c =? 45))%N
  end.

(** ** Sample files

    Small glB files on which the model is run. *)

Module Samples.
Local Open Scope N_scope.

Definition bytes_of (codes : list N) : list byte :=
  map (fun n => match Byte.of_N n with Some b => b | None => x00 end) codes.

(** The 20 bytes of a header: [glTF], version 2, the two lengths, [JSON]. *)
Definition header_bytes (ver total chunk : N) : list N :=
  [0x67; 0x6C; 0x54; 0x46; ver; 0; 0; 0; total; 0; 0; 0; chunk; 0; 0; 0;
   0x4A; 0x53; 0x4F; 0x4E].

(** The chunk [[1, 2.0, null]]. *)
Definition chunk : list N := PyJson.lit "[1, 2.0, null]".

(** A well-formed file of 34 bytes. *)
Definition good : list byte := bytes_of (header_bytes 2 34 14 ++ chunk).

(** The same file with another [totalLength]. *)
Definition good_other_length : list byte := bytes_of (header_bytes 2 7 14 ++ chunk).

(** The same file followed by a binary chunk. *)
Definition good_with_bin : list byte :=
  bytes_of (header_bytes 2 46 14 ++ chunk ++ [4; 0; 0; 0; 0x42; 0x49; 0x4E; 0; 1; 2; 3; 4]).

(** The file with the binary chunk cut off. *)
Definition good_cut : list byte := bytes_of (header_bytes 2 46 14 ++ chunk).

(** A chunk length of 200 for the same 14 bytes. *)
Definition good_long_chunk : list byte :=
  bytes_of (header_bytes 2 34 200 ++ chunk).

(** The first byte is [h] instead of [g]. *)
Definition bad_magic : list byte :=
  bytes_of (0x68 :: tl (header_bytes 2 34 14) ++ chunk).

(** Version 1. *)
Definition bad_version : list byte := bytes_of (header_bytes 1 34 14 ++ chunk).

(** The chunk type [BIN] where [JSON] is expected. *)
Definition bad_chunk : list byte :=
  bytes_of (firstn 16 (header_bytes 2 34 14) ++ [0x42; 0x49; 0x4E; 0] ++ chunk).

(** A chunk that is not JSON. *)
Definition bad_json : list byte :=
  bytes_of (header_bytes 2 34 14 ++ PyJson.lit "[1, 2.0, nul ]").

(** The first 19 bytes of a header. *)
Definition short : list byte := bytes_of (firstn 19 (header_bytes 2 34 14)).

(** The chunk of [good] followed by two spaces, which bring its length to
    a multiple of four. *)
Definition good_padded : list byte :=
  bytes_of (header_bytes 2 36 16 ++ chunk ++ [32; 32]).

(** A header and nothing after it. *)
Definition header_only : list byte := bytes_of (header_bytes 2 20 14).

(** The file system that holds one file. *)
Definition fs_with (path : string) (content : list byte) : filesystem :=
  fun p => if String.eqb p path then Some content else None.

(** The model of the library, with the floats that are whole numbers. *)
Definition zlib : JsonLib := PyJson.lib PyJson.ZFloat.

Definition zfin (z : Z) : PyJson.value PyJson.ZFloat :=
  PyJson.PyFloat_ (PyJson.ZFin z : @PyJson.float PyJson.ZFloat).

(** A value with a nested dict, a list, floats and text outside ASCII. *)
Definition sample_dict : PyJson.value PyJson.ZFloat :=
  PyJson.PyDict
    [(PyJson.lit "asset",
      PyJson.PyDict [(PyJson.lit "version", PyJson.PyStr (PyJson.lit "2.0"))]);
     (PyJson.lit "scale",
      PyJson.PyList
        [zfin 1; PyJson.PyInt (-3)%Z;
         PyJson.PyFloat_ (PyJson.ZNaN : @PyJson.float PyJson.ZFloat)]);
     ([233; 0x1F600; 10]%N,
      PyJson.PyList [PyJson.PyNone; PyJson.PyBool true; PyJson.PyList []])].

Local Open Scope string_scope.

(** [sys.argv] of the sample runs. *)
Definition argv : list string := ["./print_glb_header.py"; "a.glb"].

(** The header and the chunk of [good]. *)
Definition good_header : header := mkHeader 0x46546C67 2 34 14 0x4E4F534A.
Definition chunk_value : PyJson.value PyJson.ZFloat :=
  PyJson.PyList [PyJson.PyInt 1; zfin 2; PyJson.PyNone].

(** The file whose chunk is what the script printed for [good]. *)
Definition reprinted : list byte :=
  bytes_of (header_bytes 2 42 22)
  ++ list_byte_of_string (PyJson.dumps chunk_value 2).

End Samples.

Import Samples.

(** * Properties of the script *)

(** ** The built-ins *)

Lemma slice_byte_range {A} (l : list A) lo hi :
  0 <= lo <= hi ->
  Py.slice l lo hi = firstn (Z.to_nat (hi - lo)) (skipn (Z.to_nat lo) l).
Proof.
  intros H. unfold Py.slice, Py.adjust_index, Py.len.
  destruct (Z.ltb_spec lo 0) as [?|_]; [lia|].
  destruct (Z.ltb_spec hi 0) as [?|_]; [lia|].
  set (n := List.length l).
  destruct (Z.le_gt_cases lo (Z.of_nat n)) as [Hlo|Hlo].
  - rewrite (Z.min_l lo) by lia.
    destruct (Z.le_gt_cases hi (Z.of_nat n)) as [Hhi|Hhi].
    + rewrite Z.min_l by lia. reflexivity.
    + rewrite Z.min_r by lia.
      rewrite !firstn_all2; auto; rewrite length_skipn; fold n; lia.
  - rewrite !Z.min_r by lia.
    rewrite (skipn_all2 (n := Z.to_nat lo)) by (fold n; lia).
    rewrite skipn_all2 by (fold n; lia).
    now rewrite !firstn_nil.
Qed.

Lemma slice_0_20 {A} (l : list A) : Py.slice l 0 20 = firstn 20 l.
Proof. rewrite slice_byte_range by lia. reflexivity. Qed.

Lemma byte_val_range b : 0 <= Py.byte_val b < 256.
Proof.
  unfold Py.byte_val. pose proof (Byte.to_N_bounded b). lia.
Qed.

Lemma u32_le_nonneg a b c d : 0 <= Py.u32_le a b c d.
Proof.
  unfold Py.u32_le.
  pose proof (byte_val_range a). pose proof (byte_val_range b).
  pose proof (byte_val_range c). pose proof (byte_val_range d).
  repeat (apply Z.lor_nonneg; split); try apply Z.shiftl_nonneg; lia.
Qed.

Lemma unpack_length buf h : unpack_IIIII buf = Some h -> List.length buf = 20%nat.
Proof.
  unfold unpack_IIIII.
  do 20 (destruct buf as [|? buf]; [discriminate|]).
  destruct buf; [reflexivity|discriminate].
Qed.

Lemma unpack_short buf : List.length buf <> 20%nat -> unpack_IIIII buf = None.
Proof.
  intros H. destruct (unpack_IIIII buf) eqn:E; auto.
  apply unpack_length in E. contradiction.
Qed.

Lemma unpack_total buf :
  List.length buf = 20%nat -> exists h, unpack_IIIII buf = Some h.
Proof.
  intros H.
  do 20 (destruct buf as [|? buf]; [discriminate|]).
  destruct buf; [|discriminate]. eexists. reflexivity.
Qed.

Lemma unpack_chunkLength_nonneg buf h :
  unpack_IIIII buf = Some h -> 0 <= chunkLength h.
Proof.
  unfold unpack_IIIII.
  do 20 (destruct buf as [|? buf]; [discriminate|]).
  destruct buf; [|discriminate].
  intros E. injection E as <-. simpl. apply u32_le_nonneg.
Qed.

Lemma len_cons {A} (a : A) l : Py.len (a :: l) = Py.len l + 1.
Proof. unfold Py.len. cbn [List.length]. lia. Qed.

Lemma len_nonneg {A} (l : list A) : 0 <= Py.len l.
Proof. unfold Py.len. lia. Qed.

Lemma getitem_1 {A} (a b : A) l : Py.getitem (a :: b :: l) 1 = Some b.
Proof.
  unfold Py.getitem. rewrite !len_cons. pose proof (len_nonneg l).
  change (1 <? 0) with false. cbv iota.
  replace (1 <? Py.len l + 1 + 1) with true by (symmetry; apply Z.ltb_lt; lia).
  reflexivity.
Qed.

(** ** The script, step by step *)

Section Run.
Context {lib : JsonLib}.

(** The script on a file that holds [content], after the check of [sys.argv]. *)
Lemma run_file fs prog path rest content :
  fs path = Some content ->
  run fs (prog :: path :: rest)
  = finish (read_header content (mkWorld [] [path])).
Proof.
  intros Hfs. unfold run, script, bind, when.
  rewrite !len_cons. pose proof (len_nonneg rest).
  replace (Py.len rest + 1 + 1 =? 1) with false by (symmetry; apply Z.eqb_neq; lia).
  rewrite getitem_1. cbn. unfold open_read. rewrite Hfs. reflexivity.
Qed.

Lemma run_no_file fs prog path rest :
  fs path = None ->
  run fs (prog :: path :: rest) = mkResult (Uncaught (OSError path)) [] [path].
Proof.
  intros Hfs. unfold run, script, bind, when.
  rewrite !len_cons. pose proof (len_nonneg rest).
  replace (Py.len rest + 1 + 1 =? 1) with false by (symmetry; apply Z.eqb_neq; lia).
  rewrite getitem_1. cbn. unfold open_read. rewrite Hfs. reflexivity.
Qed.

Lemma run_usage fs prog :
  run fs [prog] = mkResult (Exit 1) [msg_usage] [].
Proof. reflexivity. Qed.

(** The body of the [with] block on a file of at least 20 bytes. *)
Lemma read_header_ok content h w :
  unpack_IIIII (firstn 20 content) = Some h ->
  read_header content w =
  if negb (magic h =? 0x46546C67) then
    (inl (SystemExit 1), mkWorld (stdout w ++ [msg_magic]) (opened w))
  else if negb (version h =? 2) then
    (inl (SystemExit 1), mkWorld (stdout w ++ [msg_version]) (opened w))
  else if negb (chunkType h =? 0x4E4F534A) then
    (inl (SystemExit 1), mkWorld (stdout w ++ [msg_chunk]) (opened w))
  else
    match json_loads (byte_range content 20 (20 + chunkLength h)) with
    | inr v => (inr tt, mkWorld (stdout w ++ [json_dumps v 2]) (opened w))
    | inl e => (inl (JsonError e), w)
    end.
Proof.
  intros Hh. unfold read_header, bind.
  rewrite slice_0_20, Hh. cbn [lift_option ret].
  pose proof (unpack_chunkLength_nonneg _ _ Hh) as Hn.
  destruct (magic h =? 0x46546C67); cbn -[Z.add Py.slice]; [|reflexivity].
  destruct (version h =? 2); cbn -[Z.add Py.slice]; [|reflexivity].
  destruct (chunkType h =? 0x4E4F534A); cbn -[Z.add Py.slice]; [|reflexivity].
  rewrite slice_byte_range by lia.
  fold (byte_range content 20 (20 + chunkLength h)).
  destruct (json_loads _); reflexivity.
Qed.

Lemma read_header_short content w :
  (List.length content < 20)%nat ->
  read_header content w = (inl StructError, w).
Proof.
  intros Hlen. unfold read_header, bind.
  rewrite slice_0_20, unpack_short; [reflexivity|].
  rewrite length_firstn. lia.
Qed.
(** The ways the script can end. *)
Lemma run_cases fs prog args : outcome (run fs (prog :: args)).
Proof.
  destruct args as [|path rest]; [apply O_usage|].
  destruct (fs path) as [content|] eqn:Hfs.
  2:{ rewrite (run_no_file _ _ _ _ Hfs). apply O_open. }
  rewrite (run_file _ _ _ _ _ Hfs).
  destruct (Nat.lt_ge_cases (List.length content) 20) as [L|L].
  { rewrite read_header_short by exact L. apply O_short. }
  destruct (unpack_total (firstn 20 content)) as [h Hh].
  { rewrite length_firstn. lia. }
  rewrite (read_header_ok _ _ _ Hh).
  destruct (magic h =? 0x46546C67); [|apply O_magic].
  destruct (version h =? 2); [|apply O_version].
  destruct (chunkType h =? 0x4E4F534A); [|apply O_chunk].
  cbn [negb]. destruct (json_loads _); [apply O_json|apply O_printed].
Qed.

End Run.

(** ** The claims about the script *)

Section Claims.
Context {lib : JsonLib}.
Variable fs : filesystem.
Variables prog path : string.
Variable rest : list string.

(** C1.  A well-formed glB file is printed.  When the first 20 bytes of
    the file unpack to a header with the magic [0x46546C67], the version 2
    and the chunk type [0x4E4F534A], and [json.loads] accepts the bytes at
    the offsets 20 to [20 + chunkLength], the script prints one thing, the
    value as [json.dumps] writes it with an indent of 2, and ends with the
    exit code 0. *)
Theorem wellformed_glb_prints_json content h v :
  fs path = Some content ->
  unpack_IIIII (firstn 20 content) = Some h ->
  magic h = 0x46546C67 -> version h = 2 -> chunkType h = 0x4E4F534A ->
  json_loads (byte_range content 20 (20 + chunkLength h)) = inr v ->
  run fs (prog :: path :: rest) = mkResult (Exit 0) [json_dumps v 2] [path]
  /\ exit_status (res_end (run fs (prog :: path :: rest))) = 0.
Proof.
  intros Hfs Hh Hm Hv Hc Hj.
  assert (run fs (prog :: path :: rest) = mkResult (Exit 0) [json_dumps v 2] [path]) as E.
  { rewrite (run_file _ _ _ _ _ Hfs), (read_header_ok _ _ _ Hh), Hm, Hv, Hc, Hj.
    reflexivity. }
  split; [exact E|]. rewrite E. reflexivity.
Qed.

(** C2.  On a file of at least 20 bytes the header unpacks, and the three
    checks run in the order magic, version, chunk type.  The first one that
    fails prints its message, and nothing else, and exits with the code 1:
    a wrong magic whatever the other fields are, a wrong version when the
    magic is right, a wrong chunk type when magic and version are right.
    The three messages are pairwise different. *)
Theorem validations_in_order content :
  fs path = Some content ->
  (20 <= List.length content)%nat ->
  exists h, unpack_IIIII (firstn 20 content) = Some h /\
    (magic h <> 0x46546C67 ->
       run fs (prog :: path :: rest) = mkResult (Exit 1) [msg_magic] [path]) /\
    (magic h = 0x46546C67 -> version h <> 2 ->
       run fs (prog :: path :: rest) = mkResult (Exit 1) [msg_version] [path]) /\
    (magic h = 0x46546C67 -> version h = 2 -> chunkType h <> 0x4E4F534A ->
       run fs (prog :: path :: rest) = mkResult (Exit 1) [msg_chunk] [path]) /\
    msg_magic <> msg_version /\ msg_magic <> msg_chunk /\ msg_version <> msg_chunk.
Proof.
  intros Hfs Hlen.
  destruct (unpack_total (firstn 20 content)) as [h Hh].
  { rewrite length_firstn. lia. }
  exists h. split; [exact Hh|].
  rewrite (run_file _ _ _ _ _ Hfs), (read_header_ok _ _ _ Hh).
  repeat split; try discriminate.
  - intros Hm. apply Z.eqb_neq in Hm. rewrite Hm. reflexivity.
  - intros Hm Hv. apply Z.eqb_neq in Hv. rewrite Hm, Hv. reflexivity.
  - intros Hm Hv Hc. apply Z.eqb_neq in Hc. rewrite Hm, Hv, Hc. reflexivity.
Qed.

(** C3.  A file shorter than 20 bytes: the slice [content[0:20]] is the
    whole file, [struct.unpack] refuses it and raises its error, which
    nobody catches; no check was made and nothing was printed. *)
Theorem short_file_fails content :
  fs path = Some content ->
  (List.length content < 20)%nat ->
  Py.slice content 0 20 = content
  /\ unpack_IIIII (Py.slice content 0 20) = None
  /\ run fs (prog :: path :: rest)
     = mkResult (Uncaught StructError) [] [path].
Proof.
  intros Hfs Hlen.
  assert (Py.slice content 0 20 = content) as E
    by (rewrite slice_0_20; apply firstn_all2; lia).
  rewrite E. repeat split.
  - apply unpack_short. lia.
  - rewrite (run_file _ _ _ _ _ Hfs), read_header_short by exact Hlen.
    reflexivity.
Qed.


(** C5.  Without an argument ([sys.argv] holds the name of the script
    only) the script prints the usage line and exits with the code 1; no
    file is opened. *)
Theorem no_argument_prints_usage :
  run fs [prog] = mkResult (Exit 1) [msg_usage] []
  /\ exit_status (res_end (run fs [prog])) = 1
  /\ res_opened (run fs [prog]) = [].
Proof. repeat split. Qed.

(** C9.  The usage error is raised exactly when no argument is given, and
    arguments after the first are ignored: the script behaves as if it had
    been given the first argument alone. *)
Theorem usage_iff_no_argument (args : list string) :
  (run fs (prog :: args) = mkResult (Exit 1) [msg_usage] [] <-> args = [])
  /\ (forall a more, run fs (prog :: a :: more) = run fs [prog; a]).
Proof.
  split.
  - split.
    + destruct args as [|a more]; [reflexivity|].
      intros E. apply (f_equal res_opened) in E.
      destruct (fs a) as [c|] eqn:Hfs.
      * rewrite (run_file _ _ _ _ _ Hfs) in E.
        assert (forall r w, opened (snd r) = opened w -> res_opened (finish r) = opened w) as F
          by (intros [o w'] w; auto).
        exfalso. revert E. 
        assert (forall w, opened (snd (read_header c w)) = opened w) as K.
        { intros w. destruct (Nat.lt_ge_cases (List.length c) 20) as [L|L].
          - rewrite read_header_short by exact L. reflexivity.
          - destruct (unpack_total (firstn 20 c)) as [h Hh].
            { rewrite length_firstn. lia. }
            rewrite (read_header_ok _ _ _ Hh).
            repeat match goal with |- context [if ?b then _ else _] => destruct b end;
              try reflexivity.
            destruct (json_loads _); reflexivity. }
        rewrite (F _ _ (K _)). discriminate.
      * rewrite (run_no_file _ _ _ _ Hfs) in E. discriminate.
    + intros ->. reflexivity.
  - intros a more. destruct (fs a) as [c|] eqn:Hfs.
    + now rewrite !(run_file _ _ _ _ _ Hfs).
    + now rewrite !(run_no_file _ _ _ _ Hfs).
Qed.

(** C10.  When [chunkLength] announces more bytes than the file holds past
    the offset 20, the slice is what is left of the file from the offset 20
    on, no error is raised by the slice, and [json.loads] is run on these
    bytes: the script prints the value when they parse and fails with the
    error of [json.loads] when they do not. *)
Theorem long_chunk_length_is_clamped content h :
  fs path = Some content ->
  unpack_IIIII (firstn 20 content) = Some h ->
  magic h = 0x46546C67 -> version h = 2 -> chunkType h = 0x4E4F534A ->
  Py.len content < 20 + chunkLength h ->
  Py.slice content 20 (20 + chunkLength h) = skipn 20 content
  /\ run fs (prog :: path :: rest)
     = match json_loads (skipn 20 content) with
       | inr v => mkResult (Exit 0) [json_dumps v 2] [path]
       | inl e => mkResult (Uncaught (JsonError e)) [] [path]
       end.
Proof.
  intros Hfs Hh Hm Hv Hc Hlen.
  pose proof (unpack_chunkLength_nonneg _ _ Hh) as Hn.
  assert (byte_range content 20 (20 + chunkLength h) = skipn 20 content) as E.
  { unfold byte_range. change (Z.to_nat 20) with 20%nat.
    apply firstn_all2. rewrite length_skipn. unfold Py.len in Hlen. lia. }
  split.
  - rewrite slice_byte_range by lia. exact E.
  - rewrite (run_file _ _ _ _ _ Hfs), (read_header_ok _ _ _ Hh), Hm, Hv, Hc, E.
    cbn. destruct (json_loads _); reflexivity.
Qed.

End Claims.

Lemma nth_error_ext_eq {A} (l1 l2 : list A) :
  (forall i, nth_error l1 i = nth_error l2 i) -> l1 = l2.
Proof.
  revert l2. induction l1 as [|a l1 IH]; intros [|b l2] H.
  - reflexivity.
  - specialize (H 0%nat). discriminate.
  - specialize (H 0%nat). discriminate.
  - pose proof (H 0%nat) as H0. injection H0 as ->.
    f_equal. apply IH. intros i. exact (H (S i)).
Qed.

(** C7.  [totalLength] is not used.  Two files of the same length, at
    least 20 bytes, that agree on every byte outside the offsets 8 to 11
    make the script print the same lines, fail with the same error and end
    with the same exit code. *)
Theorem totalLength_is_ignored {lib : JsonLib} (fs1 fs2 : filesystem)
    (prog path : string) (rest : list string) (c1 c2 : list byte) :
  fs1 path = Some c1 -> fs2 path = Some c2 ->
  (20 <= List.length c1)%nat ->
  List.length c1 = List.length c2 ->
  (forall i, (i < 8 \/ 12 <= i)%nat -> nth_error c1 i = nth_error c2 i) ->
  run fs1 (prog :: path :: rest) = run fs2 (prog :: path :: rest).
Proof.
  intros H1 H2 Hlen Hsame Hnth.
  rewrite (run_file _ _ _ _ _ H1), (run_file _ _ _ _ _ H2). f_equal.
  do 20 (destruct c1 as [|? c1]; [cbn in Hlen; lia|]).
  do 20 (destruct c2 as [|? c2]; [discriminate Hsame|]).
  assert (c1 = c2) as ->.
  { apply nth_error_ext_eq. intros i. apply (Hnth (20 + i)%nat). lia. }
  pose proof (Hnth 0%nat) as E0; pose proof (Hnth 1%nat) as E1;
  pose proof (Hnth 2%nat) as E2; pose proof (Hnth 3%nat) as E3;
  pose proof (Hnth 4%nat) as E4; pose proof (Hnth 5%nat) as E5;
  pose proof (Hnth 6%nat) as E6; pose proof (Hnth 7%nat) as E7;
  pose proof (Hnth 12%nat) as E12; pose proof (Hnth 13%nat) as E13;
  pose proof (Hnth 14%nat) as E14; pose proof (Hnth 15%nat) as E15;
  pose proof (Hnth 16%nat) as E16; pose proof (Hnth 17%nat) as E17;
  pose proof (Hnth 18%nat) as E18; pose proof (Hnth 19%nat) as E19.
  cbn [nth_error] in *.
  injection (E0 ltac:(lia)) as ->; injection (E1 ltac:(lia)) as ->;
  injection (E2 ltac:(lia)) as ->; injection (E3 ltac:(lia)) as ->;
  injection (E4 ltac:(lia)) as ->; injection (E5 ltac:(lia)) as ->;
  injection (E6 ltac:(lia)) as ->; injection (E7 ltac:(lia)) as ->;
  injection (E12 ltac:(lia)) as ->; injection (E13 ltac:(lia)) as ->;
  injection (E14 ltac:(lia)) as ->; injection (E15 ltac:(lia)) as ->;
  injection (E16 ltac:(lia)) as ->; injection (E17 ltac:(lia)) as ->;
  injection (E18 ltac:(lia)) as ->; injection (E19 ltac:(lia)) as ->.
  erewrite !read_header_ok by reflexivity.
  reflexivity.
Qed.

(** C8.  Bytes past the JSON chunk are not looked at.  Two files that
    agree on the offsets below [20 + chunkLength], where [chunkLength] is
    read from the header of the first, make the script behave the same,
    whatever follows.  The header need not even pass the three checks. *)
Theorem trailing_bytes_are_ignored {lib : JsonLib} (fs1 fs2 : filesystem)
    (prog path : string) (rest : list string) (c1 c2 : list byte) (h : header) :
  fs1 path = Some c1 -> fs2 path = Some c2 ->
  unpack_IIIII (firstn 20 c1) = Some h ->
  byte_range c1 0 (20 + chunkLength h) = byte_range c2 0 (20 + chunkLength h) ->
  run fs1 (prog :: path :: rest) = run fs2 (prog :: path :: rest).
Proof.
  intros H1 H2 Hh Hsame.
  pose proof (unpack_chunkLength_nonneg _ _ Hh) as Hn.
  unfold byte_range in Hsame. cbn [Z.to_nat skipn] in Hsame.
  replace (Z.to_nat (20 + chunkLength h - 0))
    with (20 + Z.to_nat (chunkLength h))%nat in Hsame by lia.
  set (n := Z.to_nat (chunkLength h)) in *.
  assert (firstn 20 c1 = firstn 20 c2) as E20.
  { assert (forall c : list byte,
              firstn 20 c = firstn 20 (firstn (20 + n) c)) as X
      by (intros c; rewrite firstn_firstn; f_equal; lia).
    now rewrite (X c1), (X c2), Hsame. }
  assert (byte_range c1 20 (20 + chunkLength h)
          = byte_range c2 20 (20 + chunkLength h)) as Ech.
  { unfold byte_range.
    replace (Z.to_nat (20 + chunkLength h - 20)) with n by lia.
    change (Z.to_nat 20) with 20%nat.
    rewrite !firstn_skipn_comm. now rewrite Hsame. }
  rewrite (run_file _ _ _ _ _ H1), (run_file _ _ _ _ _ H2). f_equal.
  rewrite (read_header_ok c1 h) by exact Hh.
  rewrite (read_header_ok c2 h) by (rewrite <- E20; exact Hh).
  now rewrite Ech.
Qed.


Lemma wellformed_glb_prints_json_witness :
  @run zlib (fs_with "a.glb" good) argv
  = mkResult (Exit 0) [PyJson.dumps chunk_value 2] ["a.glb"%string]
  /\ exit_status (res_end (@run zlib (fs_with "a.glb" good) argv)) = 0.
Proof.
  apply (wellformed_glb_prints_json (lib := zlib) (fs_with "a.glb" good)
           "./print_glb_header.py" "a.glb" [] good good_header chunk_value);
    vm_compute; reflexivity.
Defined.

Lemma validations_in_order_witness :
  exists h, unpack_IIIII (firstn 20 bad_version) = Some h /\
    (magic h <> 0x46546C67 ->
       @run zlib (fs_with "a.glb" bad_version) argv = mkResult (Exit 1) [msg_magic] ["a.glb"%string]) /\
    (magic h = 0x46546C67 -> version h <> 2 ->
       @run zlib (fs_with "a.glb" bad_version) argv = mkResult (Exit 1) [msg_version] ["a.glb"%string]) /\
    (magic h = 0x46546C67 -> version h = 2 -> chunkType h <> 0x4E4F534A ->
       @run zlib (fs_with "a.glb" bad_version) argv = mkResult (Exit 1) [msg_chunk] ["a.glb"%string]) /\
    msg_magic <> msg_version /\ msg_magic <> msg_chunk /\ msg_version <> msg_chunk.
Proof.
  apply (validations_in_order (lib := zlib) (fs_with "a.glb" bad_version)
           "./print_glb_header.py" "a.glb" [] bad_version).
  - reflexivity.
  - vm_compute. lia.
Defined.

Lemma short_file_fails_witness :
  Py.slice short 0 20 = short
  /\ unpack_IIIII (Py.slice short 0 20) = None
  /\ @run zlib (fs_with "a.glb" short) argv
     = mkResult (Uncaught StructError) [] ["a.glb"%string].
Proof.
  apply (short_file_fails (lib := zlib) (fs_with "a.glb" short)
           "./print_glb_header.py" "a.glb" [] short).
  - reflexivity.
  - vm_compute. lia.
Defined.


Lemma long_chunk_length_is_clamped_witness :
  Py.slice good_long_chunk 20 (20 + 200) = skipn 20 good_long_chunk
  /\ @run zlib (fs_with "a.glb" good_long_chunk) argv
     = mkResult (Exit 0) [PyJson.dumps chunk_value 2] ["a.glb"%string].
Proof.
  apply (long_chunk_length_is_clamped (lib := zlib) (fs_with "a.glb" good_long_chunk)
           "./print_glb_header.py" "a.glb" [] good_long_chunk
           (mkHeader 0x46546C67 2 34 200 0x4E4F534A));
    vm_compute; reflexivity.
Defined.

Lemma totalLength_is_ignored_witness :
  @run zlib (fs_with "a.glb" good) argv
  = @run zlib (fs_with "a.glb" good_other_length) argv.
Proof.
  apply (totalLength_is_ignored (lib := zlib) (fs_with "a.glb" good)
           (fs_with "a.glb" good_other_length) "./print_glb_header.py" "a.glb" []
           good good_other_length).
  - reflexivity.
  - reflexivity.
  - vm_compute. lia.
  - reflexivity.
  - intros i Hi.
    do 8 (destruct i as [|i]; [reflexivity|]).
    do 4 (destruct i as [|i]; [exfalso; lia|]).
    reflexivity.
Defined.

Lemma trailing_bytes_are_ignored_witness :
  @run zlib (fs_with "a.glb" good_with_bin) argv
  = @run zlib (fs_with "a.glb" good_cut) argv.
Proof.
  apply (trailing_bytes_are_ignored (lib := zlib) (fs_with "a.glb" good_with_bin)
           (fs_with "a.glb" good_cut) "./print_glb_header.py" "a.glb" []
           good_with_bin good_cut (mkHeader 0x46546C67 2 46 14 0x4E4F534A));
    reflexivity.
Defined.

(** * Properties of the model of the JSON library *)

Module JsonFacts.

Import PyJson.
Local Open Scope N_scope.

(** ** The JSON model: strings *)


Lemma hexval_hexdigit d : d < 16 -> hexval (hexdigit d) = Some d.
Proof.
  intros H. unfold hexdigit, hexval, is_digit.
  destruct (N.ltb_spec d 10).
  - replace ((48 <=? 48 + d) && (48 + d <=? 57)) with true
      by (symmetry; apply andb_true_iff; split; apply N.leb_le; lia).
    f_equal. lia.
  - replace ((48 <=? 87 + d) && (87 + d <=? 57)) with false
      by (symmetry; apply andb_false_iff; right; apply N.leb_gt; lia).
    replace ((97 <=? 87 + d) && (87 + d <=? 102)) with true
      by (symmetry; apply andb_true_iff; split; apply N.leb_le; lia).
    f_equal. lia.
Qed.

Lemma decode_hex4 n h1 h2 h3 h4 :
  n < 0x10000 -> hex4 n = [h1; h2; h3; h4] -> decode_uXXXX h1 h2 h3 h4 = Some n.
Proof.
  intros H E. unfold hex4 in E. injection E as <- <- <- <-.
  unfold decode_uXXXX.
  rewrite !hexval_hexdigit by (apply N.mod_lt; discriminate).
  f_equal.
  change 4096 with (16 * (16 * 16)). change 256 with (16 * 16).
  rewrite <- !N.Div0.div_div.
  pose proof (N.div_mod n 16 ltac:(discriminate)).
  pose proof (N.div_mod (n / 16) 16 ltac:(discriminate)).
  pose proof (N.div_mod (n / 16 / 16) 16 ltac:(discriminate)).
  pose proof (N.mod_lt n 16 ltac:(discriminate)).
  pose proof (N.mod_lt (n / 16) 16 ltac:(discriminate)).
  pose proof (N.mod_lt (n / 16 / 16) 16 ltac:(discriminate)).
  assert (n / 16 / 16 / 16 < 16).
  { rewrite !N.Div0.div_div. apply N.Div0.div_lt_upper_bound. exact H. }
  rewrite (N.mod_small (n / 16 / 16 / 16)) by assumption.
  pose proof (N.div_mod (n / 16 / 16) 16 ltac:(discriminate)).
  generalize dependent (n / 16 / 16 / 16). generalize dependent (n / 16 / 16 mod 16).
  generalize dependent (n / 16 / 16). generalize dependent (n / 16 mod 16).
  generalize dependent (n / 16). generalize dependent (n mod 16).
  intros. lia.
Qed.

Lemma lor_disjoint_add a b k : b < 2 ^ k -> N.lor (a * 2 ^ k) b = a * 2 ^ k + b.
Proof.
  intros Hb.
  assert (N.land (a * 2 ^ k) b = 0) as Hland.
  { apply N.bits_inj_0. intros i. rewrite N.land_spec.
    destruct (N.lt_ge_cases i k) as [L|L].
    - rewrite N.mul_pow2_bits_low by exact L. reflexivity.
    - assert (N.testbit b i = false) as ->; [|apply andb_false_r].
      destruct (N.eq_dec b 0) as [->|Hz]; [apply N.bits_0|].
      apply N.bits_above_log2. apply N.log2_lt_pow2; [lia|].
      eapply N.lt_le_trans; [exact Hb|].
      apply N.pow_le_mono_r; [discriminate|exact L]. }
  rewrite <- N.lxor_lor by exact Hland.
  symmetry. apply N.add_nocarry_lxor. exact Hland.
Qed.

Section Surrogates.
Variable c : N.
Hypothesis Hlo : 0x10000 <= c.
Hypothesis Hhi : c < 0x110000.

Let n := c - 0x10000.
Let s1 := N.lor 0xD800 (N.land (N.shiftr n 10) 0x3FF).
Let s2 := N.lor 0xDC00 (N.land n 0x3FF).

Lemma surrogate_s1 : s1 = 0xD800 + n / 1024.
Proof.
  unfold s1. change 0x3FF with (N.ones 10).
  rewrite N.land_ones, N.shiftr_div_pow2.
  change (2 ^ 10) with 1024.
  rewrite N.mod_small by (apply N.Div0.div_lt_upper_bound; unfold n; lia).
  change 0xD800 with (54 * 2 ^ 10).
  apply lor_disjoint_add. apply N.Div0.div_lt_upper_bound. unfold n. simpl. lia.
Qed.

Lemma surrogate_s2 : s2 = 0xDC00 + n mod 1024.
Proof.
  unfold s2. change 0x3FF with (N.ones 10).
  rewrite N.land_ones. change (2 ^ 10) with 1024.
  change 0xDC00 with (55 * 2 ^ 10).
  apply lor_disjoint_add. apply N.mod_lt. discriminate.
Qed.

Lemma surrogate_high : is_high s1 = true /\ is_low s1 = false /\ s1 < 0x10000.
Proof.
  rewrite surrogate_s1. unfold is_high, is_low.
  assert (n / 1024 < 1024) by (apply N.Div0.div_lt_upper_bound; unfold n; lia).
  generalize dependent (n / 1024). intros m Hm.
  repeat split.
  - apply andb_true_iff; split; apply N.leb_le; lia.
  - apply andb_false_iff; left; apply N.leb_gt; lia.
  - lia.
Qed.

Lemma surrogate_low : is_low s2 = true /\ s2 < 0x10000.
Proof.
  rewrite surrogate_s2. unfold is_low.
  assert (n mod 1024 < 1024) by (apply N.mod_lt; discriminate).
  generalize dependent (n mod 1024). intros m Hm.
  split; [apply andb_true_iff; split; apply N.leb_le|]; lia.
Qed.

Lemma surrogate_join : join_surrogates s1 s2 = c.
Proof.
  unfold join_surrogates. rewrite surrogate_s1, surrogate_s2.
  rewrite !(N.add_comm _ (n / 1024)), !(N.add_comm _ (n mod 1024)), !N.add_sub.
  rewrite N.shiftl_mul_pow2, lor_disjoint_add by (apply N.mod_lt; discriminate).
  change (2 ^ 10) with 1024.
  pose proof (N.div_mod n 1024 ltac:(discriminate)). unfold n in *. lia.
Qed.
End Surrogates.


Lemma scanstring_u h1 h2 h3 h4 uni r2 :
  decode_uXXXX h1 h2 h3 h4 = Some uni ->
  scanstring (92 :: 117 :: h1 :: h2 :: h3 :: h4 :: r2)
  = if is_high uni then lookahead uni r2 else push uni (scanstring r2).
Proof.
  intros E. cbn [scanstring]. change (92 =? 34) with false.
  change (92 =? 92) with true. change (117 =? 117) with true. cbv iota.
  rewrite E. reflexivity.
Qed.

Lemma scanstring_hex4 n t :
  n < 0x10000 ->
  scanstring (92 :: 117 :: hex4 n ++ t)
  = if is_high n then lookahead n t else push n (scanstring t).
Proof.
  intros H. apply scanstring_u. now apply (decode_hex4 n).
Qed.

Lemma lookahead_other uni b r :
  b <> 92 -> lookahead uni (b :: r) = push uni (scanstring (b :: r)).
Proof.
  intros H. unfold lookahead. destruct r; [reflexivity|].
  apply N.eqb_neq in H. rewrite H. reflexivity.
Qed.

Lemma lookahead_short uni u r :
  u <> 117 -> lookahead uni (92 :: u :: r) = push uni (scanstring (92 :: u :: r)).
Proof.
  intros H. unfold lookahead. apply N.eqb_neq in H. rewrite H.
  rewrite andb_false_r. reflexivity.
Qed.

Lemma lookahead_hex4 uni n t :
  n < 0x10000 ->
  lookahead uni (92 :: 117 :: hex4 n ++ t)
  = if is_low n then push (join_surrogates uni n) (scanstring t)
    else push uni (scanstring (92 :: 117 :: hex4 n ++ t)).
Proof.
  intros H. unfold lookahead. cbn [app hex4].
  change ((92 =? 92) && (117 =? 117)) with true. cbv iota.
  rewrite (decode_hex4 n) by (auto; reflexivity). reflexivity.
Qed.


Lemma escape_shape_of c : c < 0x110000 -> escape_shape c (escape c).
Proof.
  intros H. unfold escape.
  destruct (N.eqb_spec c 34) as [->|?]; [now apply ES_short|].
  destruct (N.eqb_spec c 92) as [->|?]; [now apply ES_short|].
  destruct (N.eqb_spec c 10) as [->|?]; [now apply ES_short|].
  destruct (N.eqb_spec c 13) as [->|?]; [now apply ES_short|].
  destruct (N.eqb_spec c 9) as [->|?]; [now apply ES_short|].
  destruct (N.eqb_spec c 12) as [->|?]; [now apply ES_short|].
  destruct (N.eqb_spec c 8) as [->|?]; [now apply ES_short|].
  destruct (N.leb_spec 32 c); cbn [andb].
  - destruct (N.leb_spec c 126); [now apply ES_plain|].
    destruct (N.ltb_spec c 0x10000); [now apply ES_u|].
    cbv zeta.
    destruct (surrogate_high c) as (? & ? & ?); auto.
    destruct (surrogate_low c) as (? & ?); auto.
    apply ES_pair; auto. now apply surrogate_join.
  - destruct (N.ltb_spec c 0x10000); [now apply ES_u|]. lia.
Qed.

(** One code point read back. *)
Lemma scanstring_escape_shape c e t :
  escape_shape c e ->
  (is_high c = true -> lookahead c t = push c (scanstring t)) ->
  scanstring (e ++ t) = push c (scanstring t).
Proof.
  intros S Hl. destruct S as [x Hx Hn| H1 H2 H3 | H | s1 s2 A B C D E J].
  - cbn [app scanstring]. change (92 =? 34) with false. change (92 =? 92) with true.
    cbv iota. apply N.eqb_neq in Hn. rewrite Hn, Hx. reflexivity.
  - cbn [app scanstring]. apply N.eqb_neq in H2, H3. rewrite H2, H3.
    replace (c <? 32) with false by (symmetry; apply N.ltb_ge; exact H1).
    reflexivity.
  - cbn [app]. rewrite scanstring_hex4 by exact H.
    destruct (is_high c); auto.
  - rewrite <- app_assoc. cbn [app]. rewrite scanstring_hex4 by exact C.
    rewrite A. change (92 :: 117 :: hex4 s2 ++ t) with (92 :: 117 :: hex4 s2 ++ t).
    rewrite lookahead_hex4 by exact E. rewrite D, J. reflexivity.
Qed.

Lemma lookahead_escape_shape uni c e t :
  escape_shape c e -> is_low c = false ->
  lookahead uni (e ++ t) = push uni (scanstring (e ++ t)).
Proof.
  intros S Hc. destruct S as [x Hx Hn| H1 H2 H3 | H | s1 s2 A B C D E J].
  - cbn [app]. now apply lookahead_short.
  - cbn [app]. now apply lookahead_other.
  - cbn [app]. rewrite lookahead_hex4 by exact H. now rewrite Hc.
  - rewrite <- app_assoc. cbn [app]. rewrite lookahead_hex4 by exact C.
    now rewrite B.
Qed.

Lemma valid_str_cons c s :
  valid_str (c :: s) = true ->
  c < 0x110000 /\ valid_str s = true
  /\ (is_high c = true -> match s with c' :: _ => is_low c' = false | [] => True end).
Proof.
  unfold valid_str. cbn [forallb no_split_pair].
  intros H. apply andb_true_iff in H as [H1 H2].
  apply andb_true_iff in H1 as [Hc Hs].
  apply N.ltb_lt in Hc. destruct s as [|c' s'].
  - repeat split; auto.
  - apply andb_true_iff in H2 as [Hp Hn].
    repeat split; auto.
    + apply andb_true_iff. split; auto.
    + intros Hh. rewrite Hh in Hp. cbn in Hp. now destruct (is_low c').
Qed.

Lemma scanstring_escape s rest :
  valid_str s = true ->
  scanstring (flat_map escape s ++ 34 :: rest) = Some (s, rest).
Proof.
  induction s as [|c s IH]; intros V.
  - reflexivity.
  - apply valid_str_cons in V as (Hc & Vs & Hp).
    cbn [flat_map]. rewrite <- app_assoc.
    rewrite (scanstring_escape_shape c (escape c)).
    + rewrite IH by exact Vs. reflexivity.
    + apply escape_shape_of. exact Hc.
    + intros Hh. specialize (Hp Hh). destruct s as [|c' s'].
      * cbn [flat_map app]. apply lookahead_other. discriminate.
      * apply valid_str_cons in Vs as (Hc' & _ & _).
        cbn [flat_map]. rewrite <- app_assoc.
        apply (lookahead_escape_shape _ c'); auto using escape_shape_of.
Qed.

Lemma scanstring_encode s rest :
  valid_str s = true ->
  exists t, encode_basestring_ascii s ++ rest = 34 :: t
            /\ scanstring t = Some (s, rest).
Proof.
  intros V. exists (flat_map escape s ++ 34 :: rest). split.
  - unfold encode_basestring_ascii. cbn [app]. now rewrite <- app_assoc.
  - now apply scanstring_escape.
Qed.

(** ** The JSON model: numbers *)


Lemma value_end_cases rest :
  value_end rest = true ->
  rest = [] \/ exists r, rest = 44 :: r \/ rest = 10 :: r.
Proof.
  destruct rest as [|c r]; [now left|]. cbn. intros H. right. exists r.
  apply orb_true_iff in H as [H|H]; apply N.eqb_eq in H; subst; auto.
Qed.

Ltac end_cases H :=
  apply value_end_cases in H as [->|[? [->| ->]]].


Lemma value_end_nondigit rest : value_end rest = true -> nondigit_start rest = true.
Proof. intros H. end_cases H; reflexivity. Qed.

Lemma span_digits_app s rest d r :
  span_digits s = (d, r) -> nondigit_start rest = true ->
  span_digits (s ++ rest) = (d, r ++ rest).
Proof.
  intros E H. revert d r E. induction s as [|c s IH]; intros d r E.
  - cbn in E. injection E as <- <-. destruct rest as [|c r]; [reflexivity|].
    cbn in *. apply negb_true_iff in H. now rewrite H.
  - cbn [span_digits app] in *. destruct (is_digit c).
    + destruct (span_digits s) as [d' r'] eqn:E'. injection E as <- <-.
      now rewrite (IH _ _ eq_refl).
    + now injection E as <- <-.
Qed.

Lemma match_integer_app s rest i r :
  match_integer s = Some (i, r) -> nondigit_start rest = true ->
  match_integer (s ++ rest) = Some (i, r ++ rest).
Proof.
  intros E H.
  assert (forall sign s1, 
    match s1 with
    | c :: r0 => if c =? 48 then Some (sign ++ [48], r0)
                 else if is_digit c then let (d, r') := span_digits r0 in Some (sign ++ c :: d, r')
                 else None
    | [] => None
    end = Some (i, r) ->
    match s1 ++ rest with
    | c :: r0 => if c =? 48 then Some (sign ++ [48], r0)
                 else if is_digit c then let (d, r') := span_digits r0 in Some (sign ++ c :: d, r')
                 else None
    | [] => None
    end = Some (i, r ++ rest)) as K.
  { intros sign [|c r0] E1; [discriminate|]. cbn [app].
    destruct (c =? 48); [now injection E1 as <- <-|].
    destruct (is_digit c); [|discriminate].
    destruct (span_digits r0) as [d r'] eqn:E2. injection E1 as <- <-.
    now rewrite (span_digits_app _ _ _ _ E2 H). }
  unfold match_integer in *. destruct s as [|c s]; [discriminate|].
  cbn [app]. destruct (c =? 45).
  - now apply K.
  - now apply (K [] (c :: s)).
Qed.

Lemma match_frac_app s rest fr r :
  match_frac s = (fr, r) -> value_end rest = true ->
  match_frac (s ++ rest) = (fr, r ++ rest).
Proof.
  intros E H. unfold match_frac in *. destruct s as [|c s].
  - injection E as <- <-. end_cases H; reflexivity.
  - cbn [app]. destruct (c =? 46); [|now injection E as <- <-].
    destruct (span_digits s) as [d r'] eqn:E2.
    rewrite (span_digits_app _ _ _ _ E2 (value_end_nondigit _ H)).
    destruct d; now injection E as <- <-.
Qed.

Lemma match_exp_app s rest ex r :
  match_exp s = (ex, r) -> value_end rest = true ->
  match_exp (s ++ rest) = (ex, r ++ rest).
Proof.
  intros E H. unfold match_exp in *. destruct s as [|c s].
  - injection E as <- <-. end_cases H; reflexivity.
  - cbn [app]. destruct ((c =? 101) || (c =? 69)); [|now injection E as <- <-].
    destruct s as [|c1 s1].
    + cbn [app]. cbn in E. injection E as <- <-.
      pose proof H as H'. end_cases H; reflexivity.
    + cbn [app]. destruct ((c1 =? 45) || (c1 =? 43)).
      * destruct (span_digits s1) as [d r'] eqn:E2.
        rewrite (span_digits_app _ _ _ _ E2 (value_end_nondigit _ H)).
        destruct d; now injection E as <- <-.
      * destruct (span_digits (c1 :: s1)) as [d r'] eqn:E2.
        change (c1 :: s1 ++ rest) with ((c1 :: s1) ++ rest).
        rewrite (span_digits_app _ _ _ _ E2 (value_end_nondigit _ H)).
        destruct d; now injection E as <- <-.
Qed.

Lemma match_number_app s rest i fr ex :
  match_number s = Some (i, fr, ex, []) -> value_end rest = true ->
  match_number (s ++ rest) = Some (i, fr, ex, rest).
Proof.
  intros E H. unfold match_number in *.
  destruct (match_integer s) as [[i' r]|] eqn:E1; [|discriminate].
  rewrite (match_integer_app _ _ _ _ E1 (value_end_nondigit _ H)).
  destruct (match_frac r) as [fr' r1] eqn:E2.
  rewrite (match_frac_app _ _ _ _ E2 H).
  destruct (match_exp r1) as [ex' r2] eqn:E3.
  rewrite (match_exp_app _ _ _ _ E3 H).
  now injection E as <- <- <- ->.
Qed.

Lemma digits_are_digits u : forallb is_digit (digits_of_uint u) = true.
Proof. induction u; cbn; auto. Qed.

Lemma span_digits_all s :
  forallb is_digit s = true -> span_digits s = (s, []).
Proof.
  induction s as [|c s IH]; [reflexivity|]. cbn. intros H.
  apply andb_true_iff in H as [-> H]. now rewrite IH.
Qed.

Lemma uint_of_digits_of_uint u : uint_of_digits (digits_of_uint u) = u.
Proof. induction u; cbn; unfold digit_of_char; cbn; congruence. Qed.

Lemma unorm_head u :
  match Decimal.unorm u with
  | Decimal.Nil => False
  | Decimal.D0 Decimal.Nil => True
  | Decimal.D0 _ => False
  | _ => True
  end.
Proof. induction u; cbn; auto. Qed.

Lemma pos_to_uint_head p :
  exists c ds, digits_of_uint (Pos.to_uint p) = c :: ds
    /\ is_digit c = true /\ (c =? 48) = false /\ (c =? 45) = false.
Proof.
  pose proof (unorm_head (Pos.to_uint p)) as H.
  pose proof (DecimalPos.Unsigned.to_of (Pos.to_uint p)) as E.
  rewrite DecimalPos.Unsigned.of_to in E. cbn [N.to_uint] in E.
  rewrite <- E in H.
  pose proof (DecimalPos.Unsigned.to_uint_nonzero p) as Hz.
  destruct (Pos.to_uint p) as [|u|u|u|u|u|u|u|u|u|u]; try contradiction;
    try (eexists _, _; cbn; repeat split; reflexivity).
  destruct u; contradiction.
Qed.

Lemma match_integer_int_repr z : match_integer (int_repr z) = Some (int_repr z, []).
Proof.
  unfold int_repr. destruct z as [|p|p]; cbn [Z.to_int].
  - reflexivity.
  - destruct (pos_to_uint_head p) as (c & ds & E & D & N0 & Nm).
    pose proof (digits_are_digits (Pos.to_uint p)) as A.
    rewrite E in *. unfold match_integer. rewrite Nm, N0, D.
    cbn in A. rewrite D in A. cbn in A. now rewrite span_digits_all.
  - destruct (pos_to_uint_head p) as (c & ds & E & D & N0 & Nm).
    pose proof (digits_are_digits (Pos.to_uint p)) as A.
    rewrite E in *. unfold match_integer. change (45 =? 45) with true. cbv iota.
    rewrite N0, D.
    cbn in A. rewrite D in A. cbn in A. now rewrite span_digits_all.
Qed.

Lemma parse_int_int_repr z : parse_int (int_repr z) = z.
Proof.
  rewrite <- (DecimalZ.of_to z) at 2.
  unfold int_repr. destruct z as [|p|p]; cbn [Z.to_int].
  - reflexivity.
  - destruct (pos_to_uint_head p) as (c & ds & E & D & N0 & Nm).
    unfold parse_int. rewrite E, Nm, <- E. now rewrite uint_of_digits_of_uint.
  - unfold parse_int. change (45 =? 45) with true. cbv iota.
    now rewrite uint_of_digits_of_uint.
Qed.

Lemma match_number_int_repr z rest :
  value_end rest = true ->
  match_number (int_repr z ++ rest) = Some (int_repr z, [], [], rest).
Proof.
  intros H. apply match_number_app; auto.
  unfold match_number. now rewrite match_integer_int_repr.
Qed.

(** The matched groups are the text that was read. *)
Lemma span_digits_concat s d r : span_digits s = (d, r) -> s = d ++ r.
Proof.
  revert d r. induction s as [|c s IH]; intros d r E; cbn in E.
  - now injection E as <- <-.
  - destruct (is_digit c).
    + destruct (span_digits s) as [d' r'] eqn:E'. injection E as <- <-.
      cbn. f_equal. now apply IH.
    + now injection E as <- <-.
Qed.

Lemma match_integer_concat s i r : match_integer s = Some (i, r) -> s = i ++ r.
Proof.
  assert (forall sign s1,
    match s1 with
    | c :: r0 => if c =? 48 then Some (sign ++ [48], r0)
                 else if is_digit c then let (d, r') := span_digits r0 in Some (sign ++ c :: d, r')
                 else None
    | [] => None
    end = Some (i, r) -> sign ++ s1 = i ++ r) as K.
  { intros sign [|c r0] E; [discriminate|].
    destruct (N.eqb_spec c 48) as [->|_].
    - injection E as <- <-. now rewrite <- app_assoc.
    - destruct (is_digit c); [|discriminate].
      destruct (span_digits r0) as [d r'] eqn:E2. injection E as <- <-.
      rewrite <- app_assoc. cbn. now rewrite (span_digits_concat _ _ _ E2). }
  unfold match_integer. destruct s as [|c s]; [discriminate|].
  destruct (N.eqb_spec c 45) as [->|_]; intros E.
  - now apply (K [45] s).
  - now apply (K [] (c :: s)).
Qed.

Lemma match_frac_concat s fr r : match_frac s = (fr, r) -> s = fr ++ r.
Proof.
  unfold match_frac. destruct s as [|c s]; [now intros [= <- <-]|].
  destruct (N.eqb_spec c 46) as [->|_]; [|now intros [= <- <-]].
  destruct (span_digits s) as [d r'] eqn:E2.
  destruct d; intros [= <- <-]; auto.
  cbn. f_equal. exact (span_digits_concat _ _ _ E2).
Qed.

Lemma match_exp_concat s ex r : match_exp s = (ex, r) -> s = ex ++ r.
Proof.
  unfold match_exp. destruct s as [|c s]; [now intros [= <- <-]|].
  destruct ((c =? 101) || (c =? 69)); [|now intros [= <- <-]].
  destruct s as [|c1 s1].
  - cbn. now intros [= <- <-].
  - destruct ((c1 =? 45) || (c1 =? 43)).
    + destruct (span_digits s1) as [d r'] eqn:E2.
      destruct d; intros [= <- <-]; auto.
      cbn. do 2 f_equal. exact (span_digits_concat _ _ _ E2).
    + destruct (span_digits (c1 :: s1)) as [d r'] eqn:E2.
      destruct d; intros [= <- <-]; auto.
      cbn [app]. f_equal. exact (span_digits_concat _ _ _ E2).
Qed.

Lemma match_number_concat s i fr ex r :
  match_number s = Some (i, fr, ex, r) -> s = i ++ fr ++ ex ++ r.
Proof.
  unfold match_number.
  destruct (match_integer s) as [[i' r0]|] eqn:E1; [|discriminate].
  destruct (match_frac r0) as [fr' r1] eqn:E2.
  destruct (match_exp r1) as [ex' r2] eqn:E3.
  intros [= <- <- <- <-].
  rewrite (match_integer_concat _ _ _ E1), (match_frac_concat _ _ _ E2).
  now rewrite (match_exp_concat _ _ _ E3).
Qed.

Lemma match_number_head s x :
  match_number s = Some x ->
  exists c r, s = c :: r /\ ((c =? 45) = true \/ is_digit c = true).
Proof.
  unfold match_number, match_integer. destruct s as [|c s]; [discriminate|].
  intros E. exists c, s. split; [reflexivity|].
  destruct (c =? 45); [now left|]. right.
  destruct (N.eqb_spec c 48) as [->|_]; [reflexivity|].
  destruct (is_digit c); [reflexivity|discriminate].
Qed.

(** ** The JSON model: values *)


Section ValueInd.
Context {F : PyFloat}.
Variable P : value F -> Prop.
Hypothesis HNone : P PyNone.
Hypothesis HBool : forall b, P (PyBool b).
Hypothesis HInt : forall z, P (PyInt z).
Hypothesis HFloat : forall f, P (PyFloat_ f).
Hypothesis HStr : forall s, P (PyStr s).
Hypothesis HList : forall l, Forall P l -> P (PyList l).
Hypothesis HDict : forall d, Forall (fun kv => P (snd kv)) d -> P (PyDict d).

Fixpoint value_ind' (o : value F) : P o :=
  match o with
  | PyNone => HNone
  | PyBool b => HBool b
  | PyInt z => HInt z
  | PyFloat_ f => HFloat f
  | PyStr s => HStr s
  | PyList l =>
    HList l ((fix go (l : list (value F)) : Forall P l :=
                match l with
                | [] => Forall_nil P
                | x :: l' => Forall_cons x (value_ind' x) (go l')
                end) l)
  | PyDict d =>
    HDict d ((fix go (d : list (pystr * value F))
                : Forall (fun kv => P (snd kv)) d :=
                match d with
                | [] => Forall_nil _
                | kv :: d' => Forall_cons kv (value_ind' (snd kv)) (go d')
                end) d)
  end.
End ValueInd.

Lemma skip_ws_newline_indent indent level c r :
  is_ws c = false ->
  skip_ws (newline_indent indent level ++ c :: r) = c :: r.
Proof.
  intros H. unfold newline_indent. cbn [app skip_ws]. change (is_ws 10) with true.
  cbv iota. induction (indent * level)%nat as [|n IH]; cbn [repeat app skip_ws].
  - now rewrite H.
  - exact IH.
Qed.

Lemma skip_ws_nonws c r : is_ws c = false -> skip_ws (c :: r) = c :: r.
Proof. intros H. cbn. now rewrite H. Qed.

Lemma skip_ws_ws c r : is_ws c = true -> skip_ws (c :: r) = skip_ws r.
Proof. intros H. cbn. now rewrite H. Qed.

Lemma value_end_newline_indent indent level r :
  value_end (newline_indent indent level ++ r) = true.
Proof. reflexivity. Qed.

Lemma strip_prefix_app p r : strip_prefix p (p ++ r) = Some r.
Proof. induction p as [|a p IH]; cbn; [reflexivity|]. now rewrite N.eqb_refl. Qed.

Section RoundTrip.
Context {F : PyFloat}.
Hypothesis laws : PyFloatLaws F.

Lemma scan_once_number fuel s i fr ex r :
  match_number s = Some (i, fr, ex, r) ->
  scan_once (S fuel) s = Some (number_value i fr ex, r).
Proof.
  intros E. destruct (match_number_head _ _ E) as (c & r0 & -> & Hc).
  assert (45 <= c <= 57) as B.
  { destruct Hc as [Hc|Hc]; [apply N.eqb_eq in Hc; lia|].
    unfold is_digit in Hc. apply andb_true_iff in Hc as [A B].
    apply N.leb_le in A, B. lia. }
  cbn [scan_once strip_prefix lit list_ascii_of_string map].
  replace (c =? 34) with false by (symmetry; apply N.eqb_neq; lia).
  replace (c =? 123) with false by (symmetry; apply N.eqb_neq; lia).
  replace (c =? 91) with false by (symmetry; apply N.eqb_neq; lia).
  replace (N_of_ascii "n" =? c) with false by (symmetry; apply N.eqb_neq; cbn; lia).
  replace (N_of_ascii "t" =? c) with false by (symmetry; apply N.eqb_neq; cbn; lia).
  replace (N_of_ascii "f" =? c) with false by (symmetry; apply N.eqb_neq; cbn; lia).
  now rewrite E.
Qed.

Lemma match_number_float_repr f :
  float_classify f = FFinite ->
  exists i fr ex, match_number (float_repr f) = Some (i, fr, ex, [])
    /\ number_value i fr ex = PyFloat_ f.
Proof.
  intros Hf. pose proof (repr_literal laws f Hf) as L.
  unfold is_float_literal in L.
  destruct (match_number (float_repr f)) as [[[[i fr] ex] r]|] eqn:E; [|discriminate].
  destruct r; [|discriminate]. exists i, fr, ex. split; [reflexivity|].
  apply match_number_concat in E. rewrite app_nil_r in E.
  unfold number_value. rewrite <- E, (repr_roundtrip laws f Hf).
  destruct fr; [destruct ex; [discriminate|]|]; reflexivity.
Qed.

Lemma scan_once_floatstr fuel f rest :
  value_end rest = true ->
  scan_once (S fuel) (floatstr f ++ rest) = Some (PyFloat_ (canon_float f), rest).
Proof.
  intros H. unfold floatstr, canon_float.
  destruct (float_classify f) eqn:Hf.
  - reflexivity.
  - reflexivity.
  - reflexivity.
  - destruct (match_number_float_repr f Hf) as (i & fr & ex & E & V).
    rewrite (scan_once_number _ _ i fr ex rest), V; auto.
    now apply match_number_app.
Qed.

Lemma scan_once_int fuel z rest :
  value_end rest = true ->
  scan_once (S fuel) (int_repr z ++ rest) = Some (PyInt z, rest).
Proof.
  intros H. rewrite (scan_once_number _ _ (int_repr z) [] [] rest).
  - unfold number_value. now rewrite parse_int_int_repr.
  - now apply match_number_int_repr.
Qed.

Lemma scan_once_str fuel s rest :
  valid_str s = true ->
  scan_once (S fuel) (encode_basestring_ascii s ++ rest) = Some (PyStr s, rest).
Proof.
  intros V. destruct (scanstring_encode s rest V) as (t & -> & E).
  cbn [scan_once]. change (34 =? 34) with true. cbv iota. now rewrite E.
Qed.

(** The first character of an encoded value is not white space. *)
Lemma iterencode_head indent level (o : value F) :
  exists c t, iterencode indent level o = c :: t
    /\ is_ws c = false /\ (c =? 93) = false.
Proof.
  destruct o as [|[|]|z|f|s|[|x l]|[|kv d]];
    try (eexists _, _; repeat split; reflexivity).
  - destruct (match_number_head _ _ (match_number_int_repr z [] eq_refl))
      as (c & r & E & Hc).
    rewrite app_nil_r in E. exists c, r. split; [exact E|].
    destruct Hc as [Hc|Hc]; [apply N.eqb_eq in Hc; now subst|].
    unfold is_digit in Hc. apply andb_true_iff in Hc as [A B].
    apply N.leb_le in A, B. unfold is_ws.
    split; repeat (apply orb_false_iff; split); apply N.eqb_neq; lia.
  - cbn [iterencode]. unfold floatstr. destruct (float_classify f) eqn:Hf;
      try (eexists _, _; repeat split; reflexivity).
    destruct (match_number_float_repr f Hf) as (i & fr & ex & E & _).
    destruct (match_number_head _ _ E) as (c & r & E' & Hc).
    exists c, r. split; [exact E'|].
    destruct Hc as [Hc|Hc]; [apply N.eqb_eq in Hc; now subst|].
    unfold is_digit in Hc. apply andb_true_iff in Hc as [A B].
    apply N.leb_le in A, B. unfold is_ws.
    split; repeat (apply orb_false_iff; split); apply N.eqb_neq; lia.
Qed.

Lemma skip_ws_iterencode indent level (o : value F) rest :
  skip_ws (iterencode indent level o ++ rest) = iterencode indent level o ++ rest.
Proof.
  destruct (iterencode_head indent level o) as (c & t & -> & H & _).
  now apply skip_ws_nonws.
Qed.

End RoundTrip.

Section RoundTrip2.
Context {F : PyFloat}.
Hypothesis laws : PyFloatLaws F.
Variable indent : nat.




Lemma items_size_cons x xs : items_size (x :: xs) = S (size x + items_size xs).
Proof. reflexivity. Qed.

Lemma pairs_size_cons k v d : pairs_size ((k, v) :: d) = S (size v + pairs_size d).
Proof. reflexivity. Qed.

Lemma JSONArray_items level rest xs : forall x fuel,
  Forall (reads_back indent) (x :: xs) ->
  forallb valid (x :: xs) = true ->
  (items_size (x :: xs) <= fuel)%nat ->
  JSONArray fuel
    (iterencode indent (S level) x
     ++ encode_items (iterencode indent (S level))
          (44 :: newline_indent indent (S level)) false xs
     ++ newline_indent indent level ++ 93 :: rest)
  = Some (map canon (x :: xs), rest).
Proof.
  induction xs as [|y ys IH]; intros x fuel HF HV Hfuel;
    inversion HF as [|? ? Hx HF']; subst;
    cbn [forallb] in HV; apply andb_true_iff in HV as [Vx HV];
    rewrite items_size_cons in Hfuel;
    (destruct fuel as [|fuel]; [lia|]); cbn [JSONArray].
  - cbn [encode_items app].
    rewrite (Hx Vx); [|lia|reflexivity].
    rewrite skip_ws_newline_indent by reflexivity.
    reflexivity.
  - cbn [encode_items]. rewrite <- !app_assoc.
    rewrite (Hx Vx); [|lia|reflexivity].
    cbn [app skip_ws]. change (is_ws 44) with false. cbv iota.
    change (44 =? 93) with false. change (44 =? 44) with true. cbv iota.
    change (10 :: repeat 32 (indent * S level) ++ ?t)
      with (newline_indent indent (S level) ++ t).
    destruct (iterencode_head laws indent (S level) y) as (c & t & E & Hc & _).
    rewrite E at 1. cbn [app]. rewrite skip_ws_newline_indent by exact Hc.
    change (c :: t ++ ?r) with ((c :: t) ++ r). rewrite <- E.
    rewrite IH; auto. lia.
Qed.





Lemma JSONObject_pairs level rest d : forall k v fuel,
  Forall (fun kv => reads_back indent (snd kv)) ((k, v) :: d) ->
  forallb valid_pair ((k, v) :: d) = true ->
  (pairs_size ((k, v) :: d) <= fuel)%nat ->
  JSONObject fuel
    (flat_map escape k ++ 34 :: 58 :: 32 :: iterencode indent (S level) v
     ++ encode_items (encode_pair indent level)
          (44 :: newline_indent indent (S level)) false d
     ++ newline_indent indent level ++ 125 :: rest)
  = Some (map canon_pair ((k, v) :: d), rest).
Proof.
  induction d as [|[k2 v2] d IH]; intros k v fuel HF HV Hfuel;
    inversion HF as [|? ? Hx HF']; subst; cbn [snd] in Hx;
    cbn [forallb valid_pair] in HV; apply andb_true_iff in HV as [Vkv HV];
    apply andb_true_iff in Vkv as [Vk Vv];
    rewrite pairs_size_cons in Hfuel;
    (destruct fuel as [|fuel]; [lia|]); cbn [JSONObject];
    rewrite scanstring_escape by exact Vk;
    rewrite (skip_ws_nonws 58) by reflexivity;
    change (58 =? 58) with true; cbv iota;
    rewrite (skip_ws_ws 32) by reflexivity;
    rewrite (skip_ws_iterencode laws).
  - cbn [encode_items app].
    rewrite (Hx Vv); [|lia|reflexivity].
    rewrite skip_ws_newline_indent by reflexivity.
    reflexivity.
  - cbn [encode_items encode_pair]. rewrite <- !app_assoc.
    rewrite (Hx Vv); [|lia|reflexivity].
    cbn [app skip_ws]. change (is_ws 44) with false. cbv iota.
    change (44 =? 125) with false. change (44 =? 44) with true. cbv iota.
    change (10 :: repeat 32 (indent * S level) ++ ?t)
      with (newline_indent indent (S level) ++ t).
    unfold encode_basestring_ascii. cbn [app].
    rewrite skip_ws_newline_indent by reflexivity.
    change (34 =? 34) with true. cbv iota.
    rewrite <- !app_assoc. cbn [app].
    rewrite IH; auto. lia.
Qed.

(** [dict] of pairs with different keys keeps them all, in order. *)
Lemma pystr_eqb_eq a b : pystr_eqb a b = true <-> a = b.
Proof.
  revert b. induction a as [|x a IH]; intros [|y b]; cbn; split;
    try discriminate; auto.
  - intros H. apply andb_true_iff in H as [H1 H2].
    apply N.eqb_eq in H1. apply IH in H2. congruence.
  - intros [= -> ->]. rewrite N.eqb_refl. now apply IH.
Qed.

Lemma keys_unique_NoDup keys : keys_unique keys = true -> NoDup keys.
Proof.
  induction keys as [|k r IH]; cbn; intros H; constructor.
  - apply andb_true_iff in H as [H _]. apply negb_true_iff in H.
    intros Hin. rewrite <- not_true_iff_false in H. apply H.
    apply existsb_exists. exists k. split; [exact Hin|]. now apply pystr_eqb_eq.
  - apply andb_true_iff in H as [_ H]. now apply IH.
Qed.

Lemma dict_set_fresh (acc : list (pystr * value F)) k v :
  ~ In k (map fst acc) -> dict_set acc k v = acc ++ [(k, v)].
Proof.
  induction acc as [|[k' v'] acc IH]; cbn; intros H; [reflexivity|].
  destruct (pystr_eqb k k') eqn:E.
  - apply pystr_eqb_eq in E. subst. elim H. now left.
  - rewrite IH; auto.
Qed.

Lemma dict_of_pairs_unique (d : list (pystr * value F)) :
  keys_unique (map fst d) = true -> dict_of_pairs d = d.
Proof.
  intros H. apply keys_unique_NoDup in H. unfold dict_of_pairs.
  change d with ([] ++ d) at 2. change (map fst d) with (map fst ([] ++ d)) in H.
  generalize dependent (@nil (pystr * value F)).
  induction d as [|[k v] d IH]; intros acc H; cbn [fold_left].
  - now rewrite app_nil_r.
  - cbn [fst snd]. rewrite dict_set_fresh.
    + rewrite IH; rewrite <- app_assoc; auto.
    + rewrite map_app in H. cbn in H. apply NoDup_remove_2 in H.
      intros Hin. apply H. apply in_or_app. now left.
Qed.

Lemma map_fst_canon_pair (d : list (pystr * value F)) :
  map fst (map canon_pair d) = map fst d.
Proof. induction d as [|[k v] d IH]; cbn; congruence. Qed.

Lemma iterencode_list_cons level x xs rest :
  iterencode indent level (PyList (x :: xs)) ++ rest
  = 91 :: newline_indent indent (S level)
    ++ iterencode indent (S level) x
    ++ encode_items (iterencode indent (S level))
         (44 :: newline_indent indent (S level)) false xs
    ++ newline_indent indent level ++ 93 :: rest.
Proof.
  cbn [iterencode encode_items]. rewrite <- !app_assoc. reflexivity.
Qed.

Lemma iterencode_dict_cons level k v d rest :
  iterencode indent level (PyDict ((k, v) :: d)) ++ rest
  = 123 :: newline_indent indent (S level)
    ++ 34 :: flat_map escape k ++ 34 :: 58 :: 32
    :: iterencode indent (S level) v
    ++ encode_items (encode_pair indent level)
         (44 :: newline_indent indent (S level)) false d
    ++ newline_indent indent level ++ 125 :: rest.
Proof.
  cbn [iterencode encode_items]. unfold encode_pair, encode_basestring_ascii.
  rewrite <- !app_assoc. cbn [app]. rewrite <- !app_assoc. reflexivity.
Qed.

Theorem scan_once_iterencode (o : value F) : reads_back indent o.
Proof.
  induction o as [|b|z|f|s|l IH|d IH] using value_ind';
    intros V level fuel rest Hfuel Hend;
    (destruct fuel as [|fuel]; [cbn in Hfuel; lia|]).
  - reflexivity.
  - destruct b; reflexivity.
  - now apply scan_once_int.
  - now apply scan_once_floatstr.
  - now apply scan_once_str.
  - destruct l as [|x xs]; [reflexivity|].
    rewrite iterencode_list_cons.
    cbn [scan_once]. change (91 =? 34) with false.
    change (91 =? 123) with false. change (91 =? 91) with true. cbv iota.
    destruct (iterencode_head laws indent (S level) x) as (c & t & E & Hc & Hb).
    rewrite E at 1. cbn [app]. rewrite skip_ws_newline_indent by exact Hc.
    rewrite Hb. change (c :: t ++ ?r) with ((c :: t) ++ r).
    rewrite <- E.
    cbn [valid] in V. cbn [size] in Hfuel.
    rewrite (JSONArray_items level rest xs x fuel); auto.
    unfold items_size. lia.
  - destruct d as [|[k v] d]; [reflexivity|].
    rewrite iterencode_dict_cons.
    cbn [scan_once]. change (123 =? 34) with false.
    change (123 =? 123) with true. cbv iota.
    rewrite skip_ws_newline_indent by reflexivity.
    change (34 =? 125) with false. change (34 =? 34) with true. cbv iota.
    cbn [valid] in V. apply andb_true_iff in V as [U V]. cbn [size] in Hfuel.
    rewrite (JSONObject_pairs level rest d k v fuel IH V)
      by (unfold pairs_size; lia).
    cbn [canon]. f_equal. f_equal. f_equal.
    apply (dict_of_pairs_unique (map canon_pair ((k, v) :: d))).
    now rewrite map_fst_canon_pair.
Qed.

End RoundTrip2.

(** ** The text of the encoder as bytes *)

Lemma utf8_decode_ascii s :
  forallb is_ascii s = true -> utf8_decode s = Some s.
Proof.
  induction s as [|c s IH]; [reflexivity|]. cbn [forallb utf8_decode].
  intros H. apply andb_true_iff in H as [Hc Hs]. unfold is_ascii in Hc.
  rewrite Hc, IH by exact Hs. reflexivity.
Qed.

Lemma bytes_of_to_string s :
  forallb is_ascii s = true ->
  map Byte.to_N (list_byte_of_string (to_string s)) = s.
Proof.
  unfold to_string, list_byte_of_string.
  rewrite list_ascii_of_string_of_list_ascii, !map_map.
  induction s as [|c s IH]; [reflexivity|]. cbn [forallb map].
  intros H. apply andb_true_iff in H as [Hc Hs]. rewrite IH by exact Hs.
  f_equal. apply Byte.to_of_N. rewrite byte_of_ascii_via_N.
  rewrite N_ascii_embedding; [reflexivity|].
  unfold is_ascii in Hc. apply N.ltb_lt in Hc. lia.
Qed.

Lemma forallb_app' {A} (p : A -> bool) l1 l2 :
  forallb p l1 = true -> forallb p l2 = true -> forallb p (l1 ++ l2) = true.
Proof. intros H1 H2. rewrite forallb_app, H1, H2. reflexivity. Qed.

Lemma is_ascii_hexdigit n : is_ascii (hexdigit (n mod 16)) = true.
Proof.
  pose proof (N.mod_lt n 16 ltac:(discriminate)).
  unfold is_ascii, hexdigit. destruct (n mod 16 <? 10); apply N.ltb_lt; lia.
Qed.

Lemma is_ascii_hex4 n : forallb is_ascii (hex4 n) = true.
Proof. cbn [hex4 forallb]. now rewrite !is_ascii_hexdigit. Qed.

Lemma is_ascii_escape c : forallb is_ascii (escape c) = true.
Proof.
  unfold escape.
  repeat match goal with
  | |- context [if ?c =? ?k then _ else _] => destruct (c =? k); [reflexivity|]
  end.
  destruct ((32 <=? c) && (c <=? 126)) eqn:E.
  - apply andb_true_iff in E as [_ E]. apply N.leb_le in E.
    cbn [forallb]. unfold is_ascii. rewrite andb_true_r. apply N.ltb_lt. lia.
  - destruct (c <? 65536); cbv zeta; cbn [forallb app];
      rewrite ?forallb_app; cbn [forallb]; now rewrite !is_ascii_hex4.
Qed.

Lemma is_ascii_flat_map_escape s : forallb is_ascii (flat_map escape s) = true.
Proof.
  induction s as [|c s IH]; [reflexivity|]. cbn [flat_map].
  apply forallb_app'; auto using is_ascii_escape.
Qed.

Lemma is_ascii_encode_basestring s :
  forallb is_ascii (encode_basestring_ascii s) = true.
Proof.
  unfold encode_basestring_ascii. cbn [forallb]. change (is_ascii 34) with true.
  cbn [andb]. apply forallb_app'; [|reflexivity].
  apply is_ascii_flat_map_escape.
Qed.

Lemma is_digit_ascii c : is_digit c = true -> is_ascii c = true.
Proof.
  unfold is_digit, is_ascii. intros H. apply andb_true_iff in H as [_ H].
  apply N.leb_le in H. apply N.ltb_lt. lia.
Qed.

Lemma digits_ascii s : forallb is_digit s = true -> forallb is_ascii s = true.
Proof.
  induction s as [|c s IH]; [reflexivity|]. cbn. intros H.
  apply andb_true_iff in H as [Hc H]. now rewrite is_digit_ascii, IH.
Qed.

Lemma is_ascii_int_repr z : forallb is_ascii (int_repr z) = true.
Proof.
  unfold int_repr. destruct (Z.to_int z); cbn [forallb];
    rewrite ?digits_ascii; auto using digits_are_digits.
Qed.

Lemma span_digits_digits s d r : span_digits s = (d, r) -> forallb is_digit d = true.
Proof.
  revert d r. induction s as [|c s IH]; intros d r E; cbn in E.
  - now injection E as <- <-.
  - destruct (is_digit c) eqn:D.
    + destruct (span_digits s) as [d' r'] eqn:E'. injection E as <- <-.
      cbn. rewrite D. now apply (IH _ _ eq_refl).
    + now injection E as <- <-.
Qed.

Lemma match_integer_ascii s i r :
  match_integer s = Some (i, r) -> forallb is_ascii i = true.
Proof.
  assert (forall sign s1, forallb is_ascii sign = true ->
    match s1 with
    | c :: r0 => if c =? 48 then Some (sign ++ [48], r0)
                 else if is_digit c then let (d, r') := span_digits r0 in Some (sign ++ c :: d, r')
                 else None
    | [] => None
    end = Some (i, r) -> forallb is_ascii i = true) as K.
  { intros sign [|c r0] Hs E; [discriminate|].
    destruct (c =? 48).
    - injection E as <- <-. now apply forallb_app'.
    - destruct (is_digit c) eqn:D; [|discriminate].
      destruct (span_digits r0) as [d r'] eqn:E2. injection E as <- <-.
      apply forallb_app'; auto. cbn. rewrite (is_digit_ascii _ D).
      apply digits_ascii. now apply (span_digits_digits _ _ _ E2). }
  unfold match_integer. destruct s as [|c s]; [discriminate|].
  destruct (c =? 45); intros E.
  - now apply (K [45] s).
  - now apply (K [] (c :: s)).
Qed.

Lemma match_frac_ascii s fr r :
  match_frac s = (fr, r) -> forallb is_ascii fr = true.
Proof.
  unfold match_frac. destruct s as [|c s]; [now intros [= <- <-]|].
  destruct (c =? 46); [|now intros [= <- <-]].
  destruct (span_digits s) as [d r'] eqn:E2.
  destruct d; intros [= <- <-]; auto.
  cbn [forallb]. change (is_ascii 46) with true. cbn [andb].
  refine (digits_ascii (_ :: _) _). exact (span_digits_digits _ _ _ E2).
Qed.

Lemma match_exp_ascii s ex r :
  match_exp s = (ex, r) -> forallb is_ascii ex = true.
Proof.
  unfold match_exp. destruct s as [|c s]; [now intros [= <- <-]|].
  destruct ((c =? 101) || (c =? 69)) eqn:Ec; [|now intros [= <- <-]].
  assert (is_ascii c = true) as Hc.
  { apply orb_true_iff in Ec as [Ec|Ec]; apply N.eqb_eq in Ec; now subst. }
  destruct s as [|c1 s1].
  - cbn. now intros [= <- <-].
  - destruct ((c1 =? 45) || (c1 =? 43)) eqn:E1.
    + assert (is_ascii c1 = true) as Hc1.
      { apply orb_true_iff in E1 as [E1|E1]; apply N.eqb_eq in E1; now subst. }
      destruct (span_digits s1) as [d r'] eqn:E2.
      destruct d; intros [= <- <-]; auto.
      cbn [forallb app]. rewrite Hc, Hc1. cbn [andb].
      refine (digits_ascii (_ :: _) _). exact (span_digits_digits _ _ _ E2).
    + destruct (span_digits (c1 :: s1)) as [d r'] eqn:E2.
      destruct d; intros [= <- <-]; auto.
      cbn [forallb app]. rewrite Hc. cbn [andb].
      refine (digits_ascii (_ :: _) _). exact (span_digits_digits _ _ _ E2).
Qed.

Lemma match_number_ascii s i fr ex :
  match_number s = Some (i, fr, ex, []) -> forallb is_ascii s = true.
Proof.
  intros E. rewrite (match_number_concat _ _ _ _ _ E), app_nil_r.
  unfold match_number in E.
  destruct (match_integer s) as [[i' r0]|] eqn:E1; [|discriminate].
  destruct (match_frac r0) as [fr' r1] eqn:E2.
  destruct (match_exp r1) as [ex' r2] eqn:E3.
  injection E as <- <- <- ->.
  repeat apply forallb_app';
    eauto using match_integer_ascii, match_frac_ascii, match_exp_ascii.
Qed.

Section RoundTrip3.
Context {F : PyFloat}.
Hypothesis laws : PyFloatLaws F.
Variable indent : nat.

Lemma is_ascii_floatstr (f : float) : forallb is_ascii (floatstr f) = true.
Proof.
  unfold floatstr. destruct (float_classify f) eqn:Hf; try reflexivity.
  destruct (match_number_float_repr laws f Hf) as (i & fr & ex & E & _).
  exact (match_number_ascii _ _ _ _ E).
Qed.

Lemma is_ascii_newline_indent level :
  forallb is_ascii (newline_indent indent level) = true.
Proof.
  unfold newline_indent. cbn [forallb]. change (is_ascii 10) with true. cbn [andb].
  induction (indent * level)%nat; cbn; auto.
Qed.

Lemma is_ascii_encode_items {A} (enc : A -> pystr) sep l : forall first,
  forallb is_ascii sep = true ->
  Forall (fun x => forallb is_ascii (enc x) = true) l ->
  forallb is_ascii (encode_items enc sep first l) = true.
Proof.
  induction l as [|x l IH]; intros first Hs H; [reflexivity|].
  inversion H; subst. cbn [encode_items].
  repeat apply forallb_app'; auto. now destruct first.
Qed.

Lemma is_ascii_iterencode (o : value F) : forall level,
  forallb is_ascii (iterencode indent level o) = true.
Proof.
  induction o as [|b|z|f|s|l IH|d IH] using value_ind'; intros level.
  - reflexivity.
  - destruct b; reflexivity.
  - apply is_ascii_int_repr.
  - apply is_ascii_floatstr.
  - apply is_ascii_encode_basestring.
  - destruct l as [|x xs]; [reflexivity|].
    rewrite <- (app_nil_r (iterencode _ _ _)), iterencode_list_cons.
    inversion IH as [|? ? Hx IH']; subst.
    cbn [forallb]. rewrite !forallb_app. cbn [forallb].
    rewrite !is_ascii_newline_indent, Hx.
    rewrite is_ascii_encode_items; [reflexivity| |].
    + cbn [forallb]. now rewrite is_ascii_newline_indent.
    + eapply Forall_impl; [|exact IH']. auto.
  - destruct d as [|[k v] d]; [reflexivity|].
    rewrite <- (app_nil_r (iterencode _ _ _)), iterencode_dict_cons.
    inversion IH as [|? ? Hv IH']; subst. cbn [snd] in Hv.
    cbn [forallb]. rewrite !forallb_app. cbn [forallb].
    rewrite !forallb_app. cbn [forallb]. rewrite !forallb_app. cbn [forallb].
    rewrite !is_ascii_newline_indent, Hv, is_ascii_flat_map_escape.
    rewrite is_ascii_encode_items; [reflexivity| |].
    + cbn [forallb]. now rewrite is_ascii_newline_indent.
    + eapply Forall_impl; [|exact IH']. intros [k' v'] H. cbn [snd] in H.
      unfold encode_pair. rewrite !forallb_app, H.
      now rewrite is_ascii_encode_basestring.
Qed.

(** The fuel of [decode] is enough for the text of a value. *)
Lemma length_encode_items {A} (enc : A -> pystr) (sz : A -> nat) sep l :
  (1 <= List.length sep)%nat ->
  Forall (fun x => (sz x <= List.length (enc x))%nat) l ->
  (fold_right (fun x n => S (sz x + n)) 0 l
   <= List.length (encode_items enc sep false l))%nat.
Proof.
  intros Hs H. induction H as [|x l Hx H IH]; [apply Nat.le_refl|].
  cbn [fold_right encode_items]. rewrite !length_app. lia.
Qed.

Lemma size_le_length (o : value F) : forall level,
  (size o <= List.length (iterencode indent level o))%nat.
Proof.
  induction o as [|b|z|f|s|l IH|d IH] using value_ind'; intros level.
  - cbn; lia.
  - destruct b; cbn; lia.
  - destruct (iterencode_head laws indent level (PyInt z)) as (c & t & -> & _).
    cbn; lia.
  - destruct (iterencode_head laws indent level (PyFloat_ f)) as (c & t & -> & _).
    cbn; lia.
  - destruct (iterencode_head laws indent level (PyStr s)) as (c & t & -> & _).
    cbn; lia.
  - destruct l as [|x xs]; [cbn; lia|].
    rewrite <- (app_nil_r (iterencode _ _ _)), iterencode_list_cons.
    inversion IH as [|? ? Hx IH']; subst.
    pose proof (length_encode_items (iterencode indent (S level)) size
                  (44 :: newline_indent indent (S level)) xs
                  ltac:(cbn; lia)
                  (Forall_impl _ (fun a H => H (S level)) IH')) as L.
    specialize (Hx (S level)).
    cbn [size fold_right List.length]. rewrite !length_app. cbn [List.length].
    unfold newline_indent at 1 3. cbn [List.length]. lia.
  - destruct d as [|[k v] d]; [cbn; lia|].
    rewrite <- (app_nil_r (iterencode _ _ _)), iterencode_dict_cons.
    inversion IH as [|? ? Hv IH']; subst. cbn [snd] in Hv.
    pose proof (length_encode_items (encode_pair indent level)
                  (fun kv : pystr * value F => size (snd kv))
                  (44 :: newline_indent indent (S level)) d
                  ltac:(cbn; lia)) as L.
    assert (Forall (fun x : pystr * value F =>
              (size (snd x) <= List.length (encode_pair indent level x))%nat) d) as K.
    { eapply Forall_impl; [|exact IH']. intros [k' v'] H. cbn [snd] in *.
      unfold encode_pair. rewrite !length_app. specialize (H (S level)). lia. }
    specialize (L K). specialize (Hv (S level)).
    cbn [size fold_right List.length snd]. rewrite !length_app.
    cbn [List.length]. rewrite !length_app. cbn [List.length].
    rewrite !length_app. cbn [List.length]. lia.
Qed.

(** Writing the canonical form of a value gives the same text. *)
Lemma floatstr_canon (f : float) : floatstr (canon_float f) = floatstr f.
Proof.
  unfold floatstr, canon_float. destruct (float_classify f) eqn:Hf.
  - now rewrite (classify_nan laws).
  - now rewrite (classify_inf laws).
  - now rewrite (classify_neginf laws).
  - now rewrite Hf.
Qed.

Lemma encode_items_map {A} (enc : A -> pystr) (g : A -> A) sep l : forall first,
  Forall (fun x => enc (g x) = enc x) l ->
  encode_items enc sep first (map g l) = encode_items enc sep first l.
Proof.
  induction l as [|x l IH]; intros first H; [reflexivity|].
  inversion H; subst. cbn [map encode_items]. now rewrite IH by assumption; congruence.
Qed.

Lemma iterencode_canon (o : value F) : forall level,
  iterencode indent level (canon o) = iterencode indent level o.
Proof.
  induction o as [|b|z|f|s|l IH|d IH] using value_ind'; intros level;
    try reflexivity.
  - cbn [canon iterencode]. apply floatstr_canon.
  - destruct l as [|x xs]; [reflexivity|].
    cbn [canon]. change (map canon (x :: xs)) with (canon x :: map canon xs).
    apply (app_inv_tail []). rewrite !iterencode_list_cons.
    inversion IH as [|? ? Hx IH']; subst.
    rewrite Hx, encode_items_map; [reflexivity|].
    eapply Forall_impl; [|exact IH']. auto.
  - destruct d as [|[k v] d]; [reflexivity|].
    cbn [canon]. fold (canon_pair (F := F)). cbn [map canon_pair].
    apply (app_inv_tail []). rewrite !iterencode_dict_cons.
    inversion IH as [|? ? Hv IH']; subst. cbn [snd] in Hv.
    rewrite Hv, encode_items_map; [reflexivity|].
    eapply Forall_impl; [|exact IH']. intros [k' v'] H. cbn [snd] in H.
    unfold canon_pair, encode_pair. now rewrite H.
Qed.

(** [json.loads] reads back what [json.dumps] wrote. *)
Theorem loads_dumps (o : value F) :
  valid o = true ->
  loads (list_byte_of_string (dumps o indent)) = inr (canon o).
Proof.
  intros V. unfold loads, dumps.
  rewrite bytes_of_to_string by apply is_ascii_iterencode.
  rewrite utf8_decode_ascii by apply is_ascii_iterencode.
  unfold decode.
  rewrite <- (app_nil_r (iterencode indent 0 o)) at 2.
  rewrite (skip_ws_iterencode laws).
  rewrite (scan_once_iterencode laws indent o V); auto.
  pose proof (size_le_length o 0). lia.
Qed.

Theorem dumps_canon (o : value F) : dumps (canon o) indent = dumps o indent.
Proof. unfold dumps. now rewrite iterencode_canon. Qed.

End RoundTrip3.

(** ** The floats that are whole numbers *)

Lemma ZFloat_laws : PyFloatLaws ZFloat.
Proof.
  split; try reflexivity.
  - intros [| | |z] Hf; try discriminate.
    cbn [float_repr ZFloat zfloat_repr]. unfold is_float_literal, match_number.
    rewrite (match_integer_app _ [46; 48] _ _ (match_integer_int_repr z) eq_refl).
    reflexivity.
  - intros [| | |z] Hf; try discriminate.
    cbn [float_repr float_of_literal ZFloat zfloat_repr]. unfold zfloat_of_literal.
    rewrite (match_integer_app _ [46; 48] _ _ (match_integer_int_repr z) eq_refl).
    now rewrite parse_int_int_repr.
Qed.




(** ** What [json.loads] returns is valid *)

Lemma length_ind {A} (P : list A -> Prop) :
  (forall l, (forall l', (List.length l' < List.length l)%nat -> P l') -> P l) ->
  forall l, P l.
Proof.
  intros H l.
  assert (forall n l, (List.length l < n)%nat -> P l) as K.
  { induction n as [|n IH]; intros l' L; [lia|].
    apply H. intros l'' L'. apply IH. lia. }
  apply (K (S (List.length l))). lia.
Qed.

Lemma cons_opt_Some c o s : cons_opt c o = Some s -> exists s', o = Some s' /\ s = c :: s'.
Proof. destruct o as [s'|]; [|discriminate]. intros [= <-]. now exists s'. Qed.

Lemma utf8_decode_scalar bs : forall s,
  utf8_decode bs = Some s -> forallb is_scalar s = true.
Proof.
  induction bs as [bs IH] using length_ind.
  intros s E. destruct bs as [|b0 r]; [now injection E as <-|].
  cbn [utf8_decode] in E.
  assert (forall c r' s, (List.length r' < List.length (b0 :: r))%nat ->
            is_scalar c = true ->
            cons_opt c (utf8_decode r') = Some s -> forallb is_scalar s = true) as K.
  { intros c r' s0 L Hc E0. apply cons_opt_Some in E0 as (s' & E1 & ->).
    cbn [forallb]. rewrite Hc. exact (IH r' L s' E1). }
  destruct (N.ltb_spec b0 0x80).
  { refine (K _ r s _ _ E); [cbn; lia|]. unfold is_scalar, is_surrogate.
    apply andb_true_iff; split; [apply N.ltb_lt; lia|].
    apply negb_true_iff, andb_false_iff. left. apply N.leb_gt. lia. }
  destruct (N.ltb_spec b0 0xC0); [discriminate|].
  destruct (N.ltb_spec b0 0xE0).
  { destruct r as [|b1 r1]; [discriminate|].
    destruct (is_cont b1 && (0x80 <=? (b0 - 0xC0) * 64 + (b1 - 0x80))) eqn:C;
      [|discriminate].
    apply andb_true_iff in C as [C1 C2]. unfold is_cont in C1.
    apply andb_true_iff in C1 as [C1 C1']. apply N.leb_le in C1, C1'.
    refine (K _ r1 s _ _ E); [cbn; lia|]. unfold is_scalar, is_surrogate.
    apply andb_true_iff; split; [apply N.ltb_lt; lia|].
    apply negb_true_iff, andb_false_iff. left. apply N.leb_gt. lia. }
  destruct (N.ltb_spec b0 0xF0).
  { destruct r as [|b1 [|b2 r2]]; try discriminate.
    match type of E with (if ?c then _ else _) = _ => destruct c eqn:C end;
      [|discriminate].
    repeat (apply andb_true_iff in C as [C ?]).
    unfold is_cont in *.
    repeat match goal with
    | H : _ && _ = true |- _ => apply andb_true_iff in H as [? ?]
    | H : (_ <=? _) = true |- _ => apply N.leb_le in H
    end.
    refine (K _ r2 s _ _ E); [cbn; lia|]. unfold is_scalar.
    apply andb_true_iff; split; [apply N.ltb_lt; lia|assumption]. }
  destruct (N.ltb_spec b0 0xF8); [|discriminate].
  destruct r as [|b1 [|b2 [|b3 r3]]]; try discriminate.
  match type of E with (if ?c then _ else _) = _ => destruct c eqn:C end;
    [|discriminate].
  repeat (apply andb_true_iff in C as [C ?]).
  repeat match goal with
  | H : (_ <=? _) = true |- _ => apply N.leb_le in H
  | H : (_ <? _) = true |- _ => apply N.ltb_lt in H
  end.
  refine (K _ r3 s _ _ E); [cbn; lia|]. unfold is_scalar, is_surrogate.
  apply andb_true_iff; split; [apply N.ltb_lt; lia|].
  apply negb_true_iff, andb_false_iff. right. apply N.leb_gt. lia.
Qed.

Lemma hexval_bound c a : hexval c = Some a -> a < 16.
Proof.
  unfold hexval, is_digit.
  destruct ((48 <=? c) && (c <=? 57)) eqn:D.
  { apply andb_true_iff in D as [A B]. apply N.leb_le in A, B. intros [= <-]. lia. }
  destruct ((97 <=? c) && (c <=? 102)) eqn:L.
  { apply andb_true_iff in L as [A B]. apply N.leb_le in A, B. intros [= <-]. lia. }
  destruct ((65 <=? c) && (c <=? 70)) eqn:U; [|discriminate].
  apply andb_true_iff in U as [A B]. apply N.leb_le in A, B. intros [= <-]. lia.
Qed.

Lemma decode_uXXXX_bound h1 h2 h3 h4 uni :
  decode_uXXXX h1 h2 h3 h4 = Some uni -> uni < 0x10000.
Proof.
  unfold decode_uXXXX.
  destruct (hexval h1) as [a|] eqn:A; [|discriminate].
  destruct (hexval h2) as [b|] eqn:B; [|discriminate].
  destruct (hexval h3) as [c|] eqn:C; [|discriminate].
  destruct (hexval h4) as [d|] eqn:D; [|discriminate].
  apply hexval_bound in A, B, C, D. intros [= <-]. lia.
Qed.

Lemma join_surrogates_bound uni uni2 :
  is_high uni = true -> is_low uni2 = true ->
  0x10000 <= join_surrogates uni uni2 < 0x110000.
Proof.
  unfold is_high, is_low, join_surrogates. intros H L.
  apply andb_true_iff in H as [H1 H2]. apply andb_true_iff in L as [L1 L2].
  apply N.leb_le in H1, H2, L1, L2.
  rewrite N.shiftl_mul_pow2, lor_disjoint_add by (change (2 ^ 10) with 1024; lia).
  change (2 ^ 10) with 1024. lia.
Qed.

Lemma valid_str_cons_intro c s :
  c < 0x110000 -> valid_str s = true ->
  (is_high c = true -> head_not_low s = true) ->
  valid_str (c :: s) = true.
Proof.
  unfold valid_str. intros Hc V Hp. apply andb_true_iff in V as [V1 V2].
  cbn [forallb no_split_pair]. apply N.ltb_lt in Hc. rewrite Hc, V1. cbn [andb].
  destruct s as [|c' s']; [reflexivity|]. rewrite V2, andb_true_r.
  destruct (is_high c); [|reflexivity]. specialize (Hp eq_refl). cbn in Hp.
  apply negb_true_iff in Hp. now rewrite Hp.
Qed.

Lemma is_scalar_spec c :
  is_scalar c = true -> c < 0x110000 /\ is_high c = false /\ is_low c = false.
Proof.
  unfold is_scalar, is_surrogate, is_high, is_low. intros H.
  apply andb_true_iff in H as [H1 H2]. apply N.ltb_lt in H1.
  apply negb_true_iff, andb_false_iff in H2.
  repeat split; auto; apply andb_false_iff;
    destruct H2 as [H2|H2]; apply N.leb_gt in H2;
    [left|right|left|right]; apply N.leb_gt; lia.
Qed.

Lemma high_not_low c : is_high c = true -> is_low c = false.
Proof.
  unfold is_high, is_low. intros H. apply andb_true_iff in H as [_ H].
  apply N.leb_le in H. apply andb_false_iff. left. apply N.leb_gt. lia.
Qed.

Lemma BACKSLASH_plain esc ch :
  BACKSLASH esc = Some ch -> ch < 0x110000 /\ is_high ch = false /\ is_low ch = false.
Proof.
  unfold BACKSLASH.
  repeat match goal with
  | |- (if ?b then _ else _) = _ -> _ => destruct b; [intros [= <-]; now repeat split|]
  end. discriminate.
Qed.


Lemma push_Some c (o : option (pystr * pystr)) str r :
  push c o = Some (str, r) -> exists str', o = Some (str', r) /\ str = c :: str'.
Proof.
  destruct o as [[str' r']|]; [|discriminate]. intros [= <- <-]. now exists str'.
Qed.

Lemma scanstring_valid s : forall str r,
  forallb is_scalar s = true ->
  scanstring s = Some (str, r) -> scanned_ok s str r.
Proof.
  induction s as [s IH] using length_ind. intros str r Hs E.
  (* one code point [c] in front of what the rest of the text gives *)
  assert (forall c s' (t : pystr),
            (List.length s' < List.length s)%nat ->
            forallb is_scalar s' = true ->
            push c (scanstring s') = Some (str, r) ->
            c < 0x110000 ->
            (is_high c = true -> starts_low s' = false) ->
            valid_str str = true /\ forallb is_scalar r = true
            /\ exists str', str = c :: str') as K.
  { intros c s' _ L Hs' E' Hc Hh. apply push_Some in E' as (str' & E' & ->).
    destruct (IH s' L str' r Hs' E') as (V & R & P).
    repeat split; eauto. apply valid_str_cons_intro; auto. }
  destruct s as [|c r0]; [discriminate|].
  cbn [forallb] in Hs. apply andb_true_iff in Hs as [Hc Hr0].
  cbn [scanstring] in E.
  destruct (N.eqb_spec c 34) as [->|N34].
  { injection E as <- <-. now repeat split. }
  destruct (N.eqb_spec c 92) as [->|N92].
  2:{ destruct (c <? 32); [discriminate|].
      apply is_scalar_spec in Hc as (B & H & L).
      destruct (K c r0 [] ltac:(cbn; lia) Hr0 E B ltac:(congruence))
        as (V & R & str' & ->).
      repeat split; auto. intros _. cbn. now rewrite L. }
  destruct r0 as [|esc r1]; [discriminate|].
  cbn [forallb] in Hr0. apply andb_true_iff in Hr0 as [_ Hr1].
  destruct (N.eqb_spec esc 117) as [->|N117].
  2:{ destruct (BACKSLASH esc) as [ch|] eqn:Eb; [|discriminate].
      apply BACKSLASH_plain in Eb as (B & H & L).
      destruct (K ch r1 [] ltac:(cbn; lia) Hr1 E B ltac:(congruence))
        as (V & R & str' & ->).
      repeat split; auto. intros _. cbn. now rewrite L. }
  destruct r1 as [|h1 [|h2 [|h3 [|h4 r2]]]]; try discriminate.
  cbn [forallb] in Hr1.
  repeat (apply andb_true_iff in Hr1 as [_ Hr1]).
  destruct (decode_uXXXX h1 h2 h3 h4) as [uni|] eqn:Ed; [|discriminate].
  pose proof (decode_uXXXX_bound _ _ _ _ _ Ed) as Bu.
  assert (starts_low (92 :: 117 :: h1 :: h2 :: h3 :: h4 :: r2) = is_low uni) as SL.
  { cbn [starts_low]. now rewrite Ed. }
  destruct (is_high uni) eqn:Hh.
  2:{ destruct (K uni r2 [] ltac:(cbn; lia) Hr1 E ltac:(lia) ltac:(congruence))
        as (V & R & str' & ->).
      repeat split; auto. rewrite SL. intros L. cbn. now rewrite L. }
  pose proof (high_not_low _ Hh) as Lu.
  assert (starts_low r2 = false ->
          push uni (scanstring r2) = Some (str, r) ->
          scanned_ok (92 :: 117 :: h1 :: h2 :: h3 :: h4 :: r2) str r) as Lone.
  { intros S2 E'.
    destruct (K uni r2 [] ltac:(cbn; lia) Hr1 E' ltac:(lia) ltac:(auto))
      as (V & R & str' & ->).
    repeat split; auto. intros _. cbn. now rewrite Lu. }
  destruct r2 as [|b [|u r3]]; try (apply Lone; [reflexivity|exact E]).
  destruct ((b =? 92) && (u =? 117)) eqn:Ebu.
  2:{ apply Lone; [|exact E]. destruct r3 as [|? [|? [|? [|? ?]]]]; cbn [starts_low];
        try reflexivity. now rewrite Ebu. }
  destruct r3 as [|k1 [|k2 [|k3 [|k4 r4]]]]; try discriminate.
  destruct (decode_uXXXX k1 k2 k3 k4) as [uni2|] eqn:Ed2; [|discriminate].
  destruct (is_low uni2) eqn:Hl.
  2:{ apply Lone; [|exact E]. cbn [starts_low]. now rewrite Ebu, Ed2, Hl. }
  pose proof (join_surrogates_bound _ _ Hh Hl) as [J1 J2].
  assert (is_high (join_surrogates uni uni2) = false) as JH.
  { unfold is_high. apply andb_false_iff. right. apply N.leb_gt. lia. }
  assert (is_low (join_surrogates uni uni2) = false) as JL.
  { unfold is_low. apply andb_false_iff. right. apply N.leb_gt. lia. }
  cbn [forallb] in Hr1. repeat (apply andb_true_iff in Hr1 as [_ Hr1]).
  destruct (K (join_surrogates uni uni2) r4 [] ltac:(cbn; lia) Hr1 E J2
              ltac:(congruence)) as (V & R & str' & ->).
  repeat split; auto. intros _. cbn [head_not_low]. now rewrite JL.
Qed.

Lemma forallb_suffix {A} (p : A -> bool) a r :
  forallb p (a ++ r) = true -> forallb p r = true.
Proof. rewrite forallb_app. intros H. now apply andb_true_iff in H as [_ H]. Qed.

Lemma skip_ws_scalar s : forallb is_scalar s = true -> forallb is_scalar (skip_ws s) = true.
Proof.
  induction s as [|c s IH]; [reflexivity|]. cbn [skip_ws]. intros H.
  destruct (is_ws c); [|exact H]. cbn in H. apply andb_true_iff in H as [_ H]. auto.
Qed.

Lemma strip_prefix_scalar p : forall s r,
  strip_prefix p s = Some r -> forallb is_scalar s = true -> forallb is_scalar r = true.
Proof.
  induction p as [|a p IH]; intros s r E H; cbn in E.
  - now injection E as <-.
  - destruct s as [|b s]; [discriminate|]. destruct (a =? b); [|discriminate].
    cbn in H. apply andb_true_iff in H as [_ H]. eauto.
Qed.

Lemma match_number_scalar s i fr ex r :
  match_number s = Some (i, fr, ex, r) ->
  forallb is_scalar s = true -> forallb is_scalar r = true.
Proof.
  intros E H. rewrite (match_number_concat _ _ _ _ _ E) in H.
  now do 3 apply forallb_suffix in H.
Qed.

Section Valid.
Context {F : PyFloat}.

Lemma valid_number_value i fr ex : valid (number_value (F := F) i fr ex) = true.
Proof. unfold number_value. destruct fr, ex; reflexivity. Qed.

Lemma valid_dict (d : list (pystr * value F)) :
  valid (PyDict d) = keys_unique (map fst d) && forallb valid_pair d.
Proof. reflexivity. Qed.

Lemma in_keys_dict_set (d : list (pystr * value F)) k v x :
  In x (map fst (dict_set d k v)) -> In x (map fst d) \/ x = k.
Proof.
  induction d as [|[k' v'] d IH]; cbn.
  - intros [<-|[]]. now right.
  - destruct (pystr_eqb k k'); cbn; [tauto|].
    intros [<-|H]; [tauto|]. apply IH in H. tauto.
Qed.

Lemma NoDup_keys_dict_set (d : list (pystr * value F)) k v :
  NoDup (map fst d) -> NoDup (map fst (dict_set d k v)).
Proof.
  induction d as [|[k' v'] d IH]; cbn; intros H.
  - constructor; [tauto|constructor].
  - inversion H as [|? ? Hn Hd]; subst.
    destruct (pystr_eqb k k') eqn:E; cbn; constructor; auto.
    intros Hin. apply in_keys_dict_set in Hin as [Hin| ->]; [contradiction|].
    assert (pystr_eqb k k = true) as R by now apply pystr_eqb_eq.
    congruence.
Qed.

Lemma NoDup_keys_unique keys : NoDup keys -> keys_unique keys = true.
Proof.
  induction 1 as [|k r Hn Hd IH]; [reflexivity|]. cbn. rewrite IH, andb_true_r.
  apply negb_true_iff. destruct (existsb (pystr_eqb k) r) eqn:E; [|reflexivity].
  apply existsb_exists in E as (x & Hin & Hx). apply pystr_eqb_eq in Hx. now subst.
Qed.

Lemma valid_pairs_dict_set (d : list (pystr * value F)) k v :
  forallb valid_pair d = true -> valid_pair (k, v) = true ->
  forallb valid_pair (dict_set d k v) = true.
Proof.
  induction d as [|[k' v'] d IH]; cbn [dict_set forallb]; intros H Hkv.
  - now rewrite Hkv.
  - apply andb_true_iff in H as [H1 H2].
    destruct (pystr_eqb k k') eqn:E; cbn [forallb].
    + rewrite H2, andb_true_r. cbn [valid_pair] in *.
      apply andb_true_iff in H1 as [H1 _]. apply andb_true_iff in Hkv as [_ Hv].
      now rewrite H1, Hv.
    + now rewrite H1, IH.
Qed.

Lemma valid_dict_of_pairs (ps : list (pystr * value F)) :
  forallb valid_pair ps = true -> valid (PyDict (dict_of_pairs ps)) = true.
Proof.
  intros H. rewrite valid_dict. unfold dict_of_pairs.
  assert (NoDup (map fst (@nil (pystr * value F)))
          /\ forallb valid_pair (@nil (pystr * value F)) = true) as I
    by (split; [constructor|reflexivity]).
  revert I. generalize (@nil (pystr * value F)) as acc.
  induction ps as [|[k v] ps IH]; intros acc [I1 I2]; cbn [fold_left].
  - now rewrite NoDup_keys_unique, I2.
  - cbn [forallb] in H. apply andb_true_iff in H as [Hkv H].
    apply IH; auto. split.
    + now apply NoDup_keys_dict_set.
    + now apply valid_pairs_dict_set.
Qed.


Lemma scanner_valid fuel : scans_valid fuel.
Proof.
  induction fuel as [|fuel (IHs & IHa & IHo)];
    [split; [|split]; discriminate|].
  split; [|split].
  - (* scan_once *)
    intros s v r Hs E. destruct s as [|c r0]; [discriminate|].
    pose proof Hs as Hr0. cbn [forallb] in Hr0.
    apply andb_true_iff in Hr0 as [_ Hr0].
    cbn [scan_once] in E.
    destruct (c =? 34).
    { destruct (scanstring r0) as [[str r']|] eqn:Es; [|discriminate].
      injection E as <- <-. destruct (scanstring_valid _ _ _ Hr0 Es) as (V & R & _).
      now split. }
    destruct (c =? 123).
    { pose proof (skip_ws_scalar _ Hr0) as Hw.
      destruct (skip_ws r0) as [|c' r']; [discriminate|].
      cbn [forallb] in Hw. apply andb_true_iff in Hw as [_ Hw].
      destruct (c' =? 125); [injection E as <- <-; now split|].
      destruct (c' =? 34); [|discriminate].
      destruct (JSONObject fuel r') as [[ps r'']|] eqn:Eo; [|discriminate].
      injection E as <- <-. destruct (IHo _ _ _ Hw Eo) as [V R].
      split; [now apply valid_dict_of_pairs|exact R]. }
    destruct (c =? 91).
    { pose proof (skip_ws_scalar _ Hr0) as Hw.
      destruct (skip_ws r0) as [|c' r']; [discriminate|].
      destruct (c' =? 93).
      { injection E as <- <-. cbn [forallb] in Hw.
        apply andb_true_iff in Hw as [_ Hw]. now split. }
      destruct (JSONArray fuel (c' :: r')) as [[vs r'']|] eqn:Ea; [|discriminate].
      injection E as <- <-. destruct (IHa _ _ _ Hw Ea) as [V R]. now split. }
    repeat match type of E with
    | match strip_prefix ?p ?t with _ => _ end = _ =>
      let Ep := fresh "Ep" in
      destruct (strip_prefix p t) as [?r'|] eqn:Ep;
        [injection E as <- <-; split;
         [reflexivity|exact (strip_prefix_scalar _ _ _ Ep Hs)]|]
    | match match_number ?t with _ => _ end = _ =>
      let En := fresh "En" in
      destruct (match_number t) as [[[[i fr] ex] r']|] eqn:En;
        [injection E as <- <-; split;
         [apply valid_number_value|exact (match_number_scalar _ _ _ _ _ En Hs)]|]
    end.
    discriminate.
  - (* JSONArray *)
    intros s vs r Hs E. cbn [JSONArray] in E.
    destruct (scan_once fuel s) as [[v r0]|] eqn:Ev; [|discriminate].
    destruct (IHs _ _ _ Hs Ev) as [V R0].
    pose proof (skip_ws_scalar _ R0) as Hw.
    destruct (skip_ws r0) as [|c r']; [discriminate|].
    cbn [forallb] in Hw. apply andb_true_iff in Hw as [_ Hw].
    destruct (c =? 93).
    { injection E as <- <-. cbn. now rewrite V. }
    destruct (c =? 44); [|discriminate].
    destruct (JSONArray fuel (skip_ws r')) as [[vs' r'']|] eqn:Ea; [|discriminate].
    injection E as <- <-.
    destruct (IHa _ _ _ (skip_ws_scalar _ Hw) Ea) as [Vs R]. cbn. now rewrite V.
  - (* JSONObject *)
    intros s ps r Hs E. cbn [JSONObject] in E.
    destruct (scanstring s) as [[key r0]|] eqn:Ek; [|discriminate].
    destruct (scanstring_valid _ _ _ Hs Ek) as (Vk & R0 & _).
    pose proof (skip_ws_scalar _ R0) as Hw.
    destruct (skip_ws r0) as [|c r1]; [discriminate|].
    cbn [forallb] in Hw. apply andb_true_iff in Hw as [_ Hw].
    destruct (c =? 58); [|discriminate].
    destruct (scan_once fuel (skip_ws r1)) as [[v r2]|] eqn:Ev; [|discriminate].
    destruct (IHs _ _ _ (skip_ws_scalar _ Hw) Ev) as [V R2].
    pose proof (skip_ws_scalar _ R2) as Hw2.
    destruct (skip_ws r2) as [|c2 r3]; [discriminate|].
    cbn [forallb] in Hw2. apply andb_true_iff in Hw2 as [_ Hw2].
    destruct (c2 =? 125).
    { injection E as <- <-. cbn. now rewrite Vk, V. }
    destruct (c2 =? 44); [|discriminate].
    pose proof (skip_ws_scalar _ Hw2) as Hw3.
    destruct (skip_ws r3) as [|c3 r4]; [discriminate|].
    cbn [forallb] in Hw3. apply andb_true_iff in Hw3 as [_ Hw3].
    destruct (c3 =? 34); [|discriminate].
    destruct (JSONObject fuel r4) as [[ps' r5]|] eqn:Eo; [|discriminate].
    injection E as <- <-. destruct (IHo _ _ _ Hw3 Eo) as [Vp R].
    cbn. now rewrite Vk, V.
Qed.

(** Every value [json.loads] returns is valid. *)
Theorem loads_valid (b : list byte) (o : value F) :
  loads b = inr o -> valid o = true.
Proof.
  unfold loads, decode.
  destruct (utf8_decode (map Byte.to_N b)) as [s|] eqn:Eu; [|discriminate].
  apply utf8_decode_scalar in Eu.
  destruct (scan_once (S (List.length s)) (skip_ws s)) as [[v r]|] eqn:Es;
    [|discriminate].
  destruct (skip_ws r); [|discriminate]. intros [= <-].
  destruct (scanner_valid (S (List.length s))) as (H & _ & _).
  exact (proj1 (H _ _ _ (skip_ws_scalar _ Eu) Es)).
Qed.

End Valid.

(** ** The fuel of the scanner *)

Lemma skip_ws_length s : (List.length (skip_ws s) <= List.length s)%nat.
Proof.
  induction s as [|c s IH]; [apply Nat.le_refl|]. cbn [skip_ws].
  destruct (is_ws c); cbn [List.length]; lia.
Qed.

Lemma strip_prefix_length p : forall s r,
  strip_prefix p s = Some r -> (List.length r + List.length p = List.length s)%nat.
Proof.
  induction p as [|a p IH]; intros s r E; cbn in E.
  - injection E as <-. cbn. lia.
  - destruct s as [|b s]; [discriminate|]. destruct (a =? b); [|discriminate].
    apply IH in E. cbn. lia.
Qed.

Lemma scanstring_length s : forall str r,
  scanstring s = Some (str, r) -> (List.length r < List.length s)%nat.
Proof.
  induction s as [s IH] using length_ind. intros str r E.
  assert (forall c s', (List.length s' < List.length s)%nat ->
            push c (scanstring s') = Some (str, r) ->
            (List.length r < List.length s)%nat) as K.
  { intros c s' L E'. apply push_Some in E' as (str' & E' & _).
    pose proof (IH s' L _ _ E'). lia. }
  destruct s as [|c r0]; [discriminate|]. cbn [scanstring] in E.
  destruct (c =? 34). { injection E as <- <-. cbn. lia. }
  destruct (c =? 92).
  2:{ destruct (c <? 32); [discriminate|]. apply (K c r0); [cbn; lia|exact E]. }
  destruct r0 as [|esc r1]; [discriminate|].
  destruct (esc =? 117).
  2:{ destruct (BACKSLASH esc); [|discriminate]. eapply (K _ r1); [cbn; lia|exact E]. }
  destruct r1 as [|h1 [|h2 [|h3 [|h4 r2]]]]; try discriminate.
  destruct (decode_uXXXX h1 h2 h3 h4) as [uni|]; [|discriminate].
  destruct (is_high uni); [|apply (K uni r2); [cbn; lia|exact E]].
  destruct r2 as [|b [|u r3]]; try (eapply (K uni); [|exact E]; cbn; lia).
  destruct ((b =? 92) && (u =? 117)); [|eapply (K uni); [|exact E]; cbn; lia].
  destruct r3 as [|k1 [|k2 [|k3 [|k4 r4]]]]; try discriminate.
  destruct (decode_uXXXX k1 k2 k3 k4) as [uni2|]; [|discriminate].
  destruct (is_low uni2); eapply K; try exact E; cbn; lia.
Qed.

Lemma match_number_length s i fr ex r :
  match_number s = Some (i, fr, ex, r) -> (List.length r < List.length s)%nat.
Proof.
  intros E. pose proof (match_number_concat _ _ _ _ _ E) as C.
  unfold match_number in E.
  destruct (match_integer s) as [[i' r0]|] eqn:E1; [|discriminate].
  assert (i' <> []) as Hi.
  { unfold match_integer in E1. destruct s as [|c s]; [discriminate|].
    destruct (c =? 45).
    - destruct s as [|c' s']; [discriminate|]. destruct (c' =? 48).
      + injection E1 as <- <-. discriminate.
      + destruct (is_digit c'); [|discriminate].
        destruct (span_digits s'). injection E1 as <- <-. discriminate.
    - destruct (c =? 48).
      + injection E1 as <- <-. discriminate.
      + destruct (is_digit c); [|discriminate].
        destruct (span_digits s). injection E1 as <- <-. discriminate. }
  destruct (match_frac r0) as [fr' r1]. destruct (match_exp r1) as [ex' r2].
  injection E as <- <- <- <-. rewrite C, !length_app.
  destruct i'; [contradiction|]. cbn. lia.
Qed.

Section Fuel.
Context {F : PyFloat}.


Lemma scanner_fuel fuel : fuel_enough fuel.
Proof.
  induction fuel as [|fuel (IHs & IHa & IHo)];
    [split; [|split]; discriminate|].
  split; [|split].
  - (* scan_once *)
    intros s v r E. destruct s as [|c r0]; [discriminate|].
    assert ((List.length r < List.length (c :: r0))%nat ->
            (forall fuel', scan_once (S fuel') (c :: r0) = Some (v, r)) ->
            (List.length r < List.length (c :: r0))%nat
            /\ forall fuel', (List.length (c :: r0) - List.length r <= fuel')%nat ->
                 scan_once fuel' (c :: r0) = Some (v, r)) as Atom.
    { intros L H. split; [exact L|]. intros [|fuel'] Hf; [lia|apply H]. }
    cbn [scan_once] in E.
    destruct (c =? 34) eqn:C34.
    { destruct (scanstring r0) as [[str r']|] eqn:Es; [|discriminate].
      injection E as <- <-. apply scanstring_length in Es as L.
      apply Atom; [cbn; lia|]. intros fuel'. cbn [scan_once].
      now rewrite C34, Es. }
    destruct (c =? 123) eqn:C123.
    { pose proof (skip_ws_length r0) as Lw.
      destruct (skip_ws r0) as [|c' r'] eqn:Ew; [discriminate|].
      destruct (c' =? 125) eqn:C125.
      { injection E as <- <-. apply Atom; [cbn in *; lia|]. intros fuel'.
        cbn [scan_once]. now rewrite C34, C123, Ew, C125. }
      destruct (c' =? 34) eqn:C34'; [|discriminate].
      destruct (JSONObject fuel r') as [[ps r'']|] eqn:Eo; [|discriminate].
      injection E as <- <-. destruct (IHo _ _ _ Eo) as [L H].
      cbn [List.length] in *. split; [lia|].
      intros [|fuel'] Hf; [lia|]. cbn [scan_once].
      rewrite C34, C123, Ew, C125, C34', H by lia. reflexivity. }
    destruct (c =? 91) eqn:C91.
    { pose proof (skip_ws_length r0) as Lw.
      destruct (skip_ws r0) as [|c' r'] eqn:Ew; [discriminate|].
      destruct (c' =? 93) eqn:C93.
      { injection E as <- <-. apply Atom; [cbn in *; lia|]. intros fuel'.
        cbn [scan_once]. now rewrite C34, C123, C91, Ew, C93. }
      destruct (JSONArray fuel (c' :: r')) as [[vs r'']|] eqn:Ea; [|discriminate].
      injection E as <- <-. destruct (IHa _ _ _ Ea) as [L H].
      cbn [List.length] in *. split; [lia|].
      intros [|fuel'] Hf; [lia|]. cbn [scan_once].
      rewrite C34, C123, C91, Ew, C93, H by (cbn [List.length]; lia). reflexivity. }
    apply Atom.
    + repeat match type of E with
      | match strip_prefix ?p ?t with _ => _ end = _ =>
        let Ep := fresh "Ep" in
        destruct (strip_prefix p t) as [?r'|] eqn:Ep;
          [injection E as <- <-; apply strip_prefix_length in Ep;
           cbn [List.length lit list_ascii_of_string map] in Ep;
           cbn [List.length]; lia|]
      | match match_number ?t with _ => _ end = _ =>
        let En := fresh "En" in
        destruct (match_number t) as [[[[i fr] ex] r']|] eqn:En;
          [injection E as <- <-; exact (match_number_length _ _ _ _ _ En)|]
      end.
      discriminate.
    + intros fuel'. cbn [scan_once]. rewrite C34, C123, C91. exact E.
  - (* JSONArray *)
    intros s vs r E. cbn [JSONArray] in E.
    destruct (scan_once fuel s) as [[v r0]|] eqn:Ev; [|discriminate].
    destruct (IHs _ _ _ Ev) as [Lv Hv].
    pose proof (skip_ws_length r0) as Lw.
    destruct (skip_ws r0) as [|c r'] eqn:Ew; [discriminate|].
    cbn [List.length] in Lw.
    destruct (c =? 93) eqn:C93.
    { injection E as <- <-. split; [lia|].
      intros [|fuel'] Hf; [lia|]. cbn [JSONArray].
      rewrite Hv, Ew, C93 by lia. reflexivity. }
    destruct (c =? 44) eqn:C44; [|discriminate].
    pose proof (skip_ws_length r') as Lw'.
    destruct (JSONArray fuel (skip_ws r')) as [[vs' r'']|] eqn:Ea; [|discriminate].
    injection E as <- <-. destruct (IHa _ _ _ Ea) as [La Ha].
    split; [lia|]. intros [|fuel'] Hf; [lia|]. cbn [JSONArray].
    rewrite Hv, Ew, C93, C44, Ha by lia. reflexivity.
  - (* JSONObject *)
    intros s ps r E. cbn [JSONObject] in E.
    destruct (scanstring s) as [[key r0]|] eqn:Ek; [|discriminate].
    pose proof (scanstring_length _ _ _ Ek) as Lk.
    pose proof (skip_ws_length r0) as Lw.
    destruct (skip_ws r0) as [|c r1] eqn:Ew; [discriminate|].
    cbn [List.length] in Lw.
    destruct (c =? 58) eqn:C58; [|discriminate].
    pose proof (skip_ws_length r1) as Lw1.
    destruct (scan_once fuel (skip_ws r1)) as [[v r2]|] eqn:Ev; [|discriminate].
    destruct (IHs _ _ _ Ev) as [Lv Hv].
    pose proof (skip_ws_length r2) as Lw2.
    destruct (skip_ws r2) as [|c2 r3] eqn:Ew2; [discriminate|].
    cbn [List.length] in Lw2.
    destruct (c2 =? 125) eqn:C125.
    { injection E as <- <-. split; [lia|].
      intros [|fuel'] Hf; [lia|]. cbn [JSONObject].
      rewrite Ek, Ew, C58, Hv, Ew2, C125 by lia. reflexivity. }
    destruct (c2 =? 44) eqn:C44; [|discriminate].
    pose proof (skip_ws_length r3) as Lw3.
    destruct (skip_ws r3) as [|c3 r4] eqn:Ew3; [discriminate|].
    cbn [List.length] in Lw3.
    destruct (c3 =? 34) eqn:C34; [|discriminate].
    destruct (JSONObject fuel r4) as [[ps' r5]|] eqn:Eo; [|discriminate].
    injection E as <- <-. destruct (IHo _ _ _ Eo) as [Lo Ho].
    split; [lia|]. intros [|fuel'] Hf; [lia|]. cbn [JSONObject].
    rewrite Ek, Ew, C58, Hv, Ew2, C125, C44, Ew3, C34, Ho by lia. reflexivity.
Qed.

(** The bound on the recursion rejects no text: what some amount of fuel
    reads, the fuel of [decode] reads. *)
Theorem decode_fuel_is_enough (s : pystr) (fuel : nat) (v : value F) r :
  scan_once fuel (skip_ws s) = Some (v, r) ->
  scan_once (S (List.length s)) (skip_ws s) = Some (v, r).
Proof.
  intros E. destruct (scanner_fuel fuel) as (H & _ & _).
  destruct (H _ _ _ E) as [_ K]. apply K.
  pose proof (skip_ws_length s). lia.
Qed.

End Fuel.

End JsonFacts.

(** * White space around the JSON text *)

Module JsonPadding.
Import PyJson JsonFacts.
Local Open Scope N_scope.

Lemma is_ws_cases c : is_ws c = true -> c = 32 \/ c = 9 \/ c = 10 \/ c = 13.
Proof.
  unfold is_ws. intros H.
  repeat (apply orb_true_iff in H as [H|H]); apply N.eqb_eq in H; auto.
Qed.

Lemma blank_number_stop w : forallb is_ws w = true -> number_stop w = true.
Proof.
  destruct w as [|c w]; [reflexivity|]. cbn [forallb]. intros H.
  apply andb_true_iff in H as [H _].
  apply is_ws_cases in H as [->|[->|[->| ->]]]; reflexivity.
Qed.

Lemma number_stop_nondigit t : number_stop t = true -> nondigit_start t = true.
Proof.
  destruct t as [|c t]; [reflexivity|]. cbn. intros H.
  apply negb_true_iff in H. repeat (apply orb_false_iff in H as [H _]).
  now rewrite H.
Qed.

Lemma number_stop_head c t :
  number_stop (c :: t) = true ->
  is_digit c = false /\ (c =? 46) = false /\ ((c =? 101) || (c =? 69)) = false
  /\ ((c =? 45) || (c =? 43)) = false.
Proof.
  cbn. intros H. apply negb_true_iff in H.
  apply orb_false_iff in H as [H H45]. apply orb_false_iff in H as [H H43].
  apply orb_false_iff in H as [H H69]. apply orb_false_iff in H as [H H101].
  apply orb_false_iff in H as [H H46].
  now rewrite H, H46, H101, H69, H45, H43.
Qed.

(** *** White space *)

Lemma skip_ws_blank w s : forallb is_ws w = true -> skip_ws (w ++ s) = skip_ws s.
Proof.
  induction w as [|c w IH]; [reflexivity|]. cbn [forallb app skip_ws].
  intros H. apply andb_true_iff in H as [Hc Hw]. rewrite Hc. now apply IH.
Qed.

Lemma skip_ws_all_blank w : forallb is_ws w = true -> skip_ws w = [].
Proof.
  intros H. rewrite <- (app_nil_r w), skip_ws_blank by exact H. reflexivity.
Qed.

Lemma skip_ws_is_blank s : skip_ws s = [] -> forallb is_ws s = true.
Proof.
  induction s as [|c s IH]; [reflexivity|]. cbn [skip_ws forallb].
  destruct (is_ws c); [exact IH|discriminate].
Qed.

Lemma skip_ws_app s t c r :
  skip_ws s = c :: r -> skip_ws (s ++ t) = c :: r ++ t.
Proof.
  induction s as [|a s IH]; [discriminate|]. cbn [skip_ws app].
  destruct (is_ws a); [exact IH|]. now intros [= -> ->].
Qed.

(** *** Strings and literals *)

Lemma strip_prefix_app_Some p t : forall s r,
  strip_prefix p s = Some r -> strip_prefix p (s ++ t) = Some (r ++ t).
Proof.
  induction p as [|a p IH]; intros s r E; cbn in *.
  - now injection E as <-.
  - destruct s as [|b s]; [discriminate|]. cbn [app].
    destruct (a =? b); [now apply IH|discriminate].
Qed.

(** A literal that does not match still does not match when text is
    added, unless the text read was the beginning of the literal. *)
Lemma strip_prefix_app_None p t : forall s,
  strip_prefix p s = None ->
  strip_prefix p (s ++ t) = None \/ exists q, p = s ++ q.
Proof.
  induction p as [|a p IH]; intros s E; [discriminate|].
  destruct s as [|b s]; [right; now exists (a :: p)|].
  cbn [strip_prefix app] in *. destruct (N.eqb_spec a b) as [->|].
  - destruct (IH _ E) as [H|[q ->]]; [now left|right; now exists q].
  - now left.
Qed.

Lemma scanstring_app t s : forall str r,
  scanstring s = Some (str, r) -> scanstring (s ++ t) = Some (str, r ++ t).
Proof.
  induction s as [s IH] using length_ind. intros str r E.
  assert (forall c s', (List.length s' < List.length s)%nat ->
            push c (scanstring s') = Some (str, r) ->
            push c (scanstring (s' ++ t)) = Some (str, r ++ t)) as K.
  { intros c s' L E'. apply push_Some in E' as (str' & E' & ->).
    now rewrite (IH s' L _ _ E'). }
  destruct s as [|c r0]; [discriminate|]. cbn [scanstring app] in *.
  destruct (c =? 34). { now injection E as <- <-. }
  destruct (c =? 92).
  2:{ destruct (c <? 32); [discriminate|]. apply (K c r0); [cbn; lia|exact E]. }
  destruct r0 as [|esc r1]; [discriminate|]. cbn [app].
  destruct (esc =? 117).
  2:{ destruct (BACKSLASH esc); [|discriminate]. eapply (K _ r1); [cbn; lia|exact E]. }
  destruct r1 as [|h1 [|h2 [|h3 [|h4 r2]]]]; try discriminate. cbn [app].
  destruct (decode_uXXXX h1 h2 h3 h4) as [uni|]; [|discriminate].
  destruct (is_high uni); [|apply (K uni r2); [cbn; lia|exact E]].
  destruct r2 as [|b [|u r3]].
  - discriminate.
  - cbn [app]. pose proof E as E'. cbn [push scanstring] in E'.
    destruct (N.eqb_spec b 92) as [->|Hb]; [discriminate|].
    assert (push uni (scanstring ([b] ++ t)) = Some (str, r ++ t)) as G
      by (apply K; [cbn; lia|exact E]).
    cbn [app] in G. destruct t as [|u t']; [exact G|].
    destruct (N.eqb_spec b 92); [contradiction|]. exact G.
  - cbn [app]. destruct ((b =? 92) && (u =? 117)).
    2:{ refine (K uni (b :: u :: r3) _ E). cbn; lia. }
    destruct r3 as [|k1 [|k2 [|k3 [|k4 r4]]]]; try discriminate. cbn [app].
    destruct (decode_uXXXX k1 k2 k3 k4) as [uni2|]; [|discriminate].
    destruct (is_low uni2).
    + refine (K _ r4 _ E). cbn; lia.
    + refine (K uni (b :: u :: k1 :: k2 :: k3 :: k4 :: r4) _ E). cbn; lia.
Qed.

(** *** Numbers *)

Lemma match_frac_stop s t fr r :
  match_frac s = (fr, r) -> number_stop t = true ->
  match_frac (s ++ t) = (fr, r ++ t).
Proof.
  intros E H. unfold match_frac in *. destruct s as [|c s].
  - injection E as <- <-. destruct t as [|a t]; [reflexivity|].
    apply number_stop_head in H as (_ & H46 & _). cbn [app].
    now rewrite H46.
  - cbn [app]. destruct (c =? 46); [|now injection E as <- <-].
    destruct (span_digits s) as [d r'] eqn:E2.
    rewrite (span_digits_app _ _ _ _ E2 (number_stop_nondigit _ H)).
    destruct d; now injection E as <- <-.
Qed.

Lemma match_exp_stop s t ex r :
  match_exp s = (ex, r) -> number_stop t = true ->
  match_exp (s ++ t) = (ex, r ++ t).
Proof.
  intros E H. unfold match_exp in *. destruct s as [|c s].
  - injection E as <- <-. destruct t as [|a t]; [reflexivity|].
    apply number_stop_head in H as (_ & _ & He & _). cbn [app].
    now rewrite He.
  - cbn [app]. destruct ((c =? 101) || (c =? 69)); [|now injection E as <- <-].
    destruct s as [|c1 s1].
    + cbn [app]. cbn in E. injection E as <- <-.
      destruct t as [|a t]; [reflexivity|].
      apply number_stop_head in H as (D & _ & _ & Hs).
      rewrite Hs. cbn [span_digits]. rewrite D. reflexivity.
    + cbn [app]. destruct ((c1 =? 45) || (c1 =? 43)).
      * destruct (span_digits s1) as [d r'] eqn:E2.
        rewrite (span_digits_app _ _ _ _ E2 (number_stop_nondigit _ H)).
        destruct d; now injection E as <- <-.
      * destruct (span_digits (c1 :: s1)) as [d r'] eqn:E2.
        change (c1 :: s1 ++ t) with ((c1 :: s1) ++ t).
        rewrite (span_digits_app _ _ _ _ E2 (number_stop_nondigit _ H)).
        destruct d; now injection E as <- <-.
Qed.

Lemma match_number_stop s t i fr ex r :
  match_number s = Some (i, fr, ex, r) -> number_stop t = true ->
  match_number (s ++ t) = Some (i, fr, ex, r ++ t).
Proof.
  intros E H. unfold match_number in *.
  destruct (match_integer s) as [[i' r0]|] eqn:E1; [|discriminate].
  rewrite (match_integer_app _ _ _ _ E1 (number_stop_nondigit _ H)).
  destruct (match_frac r0) as [fr' r1] eqn:E2.
  rewrite (match_frac_stop _ _ _ _ E2 H).
  destruct (match_exp r1) as [ex' r2] eqn:E3.
  rewrite (match_exp_stop _ _ _ _ E3 H).
  now injection E as <- <- <- <-.
Qed.

(** Text that is no number is no number when text is added, except for
    a minus sign alone. *)
Lemma match_number_app_None s t :
  match_number s = None -> s <> [] -> s <> [45] ->
  match_number (s ++ t) = None.
Proof.
  unfold match_number, match_integer. intros E Hs Hm.
  destruct s as [|c s]; [contradiction|]. cbn [app].
  destruct (c =? 45) eqn:C.
  - apply N.eqb_eq in C. subst c.
    destruct s as [|c' s']; [contradiction|]. cbn [app].
    destruct (c' =? 48).
    { destruct (match_frac s'), (match_exp _); discriminate. }
    destruct (is_digit c'); [|reflexivity].
    destruct (span_digits s'), (match_frac _), (match_exp _); discriminate.
  - destruct (c =? 48).
    { destruct (match_frac s), (match_exp _); discriminate. }
    destruct (is_digit c); [|reflexivity].
    destruct (span_digits s), (match_frac _), (match_exp _); discriminate.
Qed.

(** *** Values *)

Section Padding.
Context {F : PyFloat}.
Variable t : pystr.
Hypothesis stop : number_stop t = true.

Lemma scan_once_nil fuel : scan_once (F := F) fuel [] = None.
Proof. destruct fuel; reflexivity. Qed.

Lemma JSONArray_nil fuel : JSONArray (F := F) fuel [] = None.
Proof. destruct fuel as [|fuel]; [reflexivity|]. cbn. now rewrite scan_once_nil. Qed.

Lemma skip_ws_app_scanned fuel s (v : value F) r :
  scan_once fuel (skip_ws s) = Some (v, r) ->
  skip_ws (s ++ t) = skip_ws s ++ t.
Proof.
  destruct (skip_ws s) as [|c r0] eqn:E.
  - now rewrite scan_once_nil.
  - intros _. exact (skip_ws_app _ _ _ _ E).
Qed.

Ltac literal E :=
  match type of E with
  | match strip_prefix ?p ?s with _ => _ end = _ =>
    let Ep := fresh "Ep" in
    let Ep' := fresh "Ep'" in
    let Hq := fresh "Hq" in
    let Hc := fresh "Hc" in
    destruct (strip_prefix p s) as [?r'|] eqn:Ep;
    [ injection E as <- <-;
      rewrite (strip_prefix_app_Some p t s _ Ep); reflexivity
    | destruct (strip_prefix_app_None p t s Ep) as [Ep'|[?q Hq]];
      [ rewrite Ep'
      | exfalso; cbn in Hq; injection Hq as Hc _; subst;
        cbn in E; discriminate E ] ]
  end.

(** A literal or a number. *)
Lemma scan_once_atom_app fuel c r0 (v : value F) r :
  (c =? 34) = false -> (c =? 123) = false -> (c =? 91) = false ->
  scan_once (S fuel) (c :: r0) = Some (v, r) ->
  scan_once (S fuel) ((c :: r0) ++ t) = Some (v, r ++ t).
Proof.
  intros C34 C123 C91 E. cbn [scan_once app] in *.
  rewrite C34, C123, C91 in *.
  change (c :: r0 ++ t) with ((c :: r0) ++ t).
  literal E. literal E. literal E.
  destruct (match_number (c :: r0)) as [[[[i fr] ex] r']|] eqn:En.
  { injection E as <- <-. now rewrite (match_number_stop _ _ _ _ _ _ En stop). }
  assert (c :: r0 <> [45]) as Hm.
  { intros [= -> ->]. cbn in E. discriminate E. }
  rewrite (match_number_app_None _ t En) by (discriminate || exact Hm).
  literal E. literal E. literal E. discriminate E.
Qed.

Lemma scanner_app fuel :
  (forall s (v : value F) r, scan_once fuel s = Some (v, r) ->
     scan_once fuel (s ++ t) = Some (v, r ++ t))
  /\ (forall s (vs : list (value F)) r, JSONArray fuel s = Some (vs, r) ->
        JSONArray fuel (s ++ t) = Some (vs, r ++ t))
  /\ (forall s (ps : list (pystr * value F)) r,
        JSONObject fuel s = Some (ps, r) ->
        JSONObject fuel (s ++ t) = Some (ps, r ++ t)).
Proof.
  induction fuel as [|fuel (IHs & IHa & IHo)];
    [split; [|split]; discriminate|].
  split; [|split].
  - (* scan_once *)
    intros s v r E. destruct s as [|c r0]; [discriminate|].
    destruct (c =? 34) eqn:C34.
    { cbn [scan_once app] in *. rewrite C34 in *.
      destruct (scanstring r0) as [[str r']|] eqn:Es; [|discriminate].
      injection E as <- <-. now rewrite (scanstring_app _ _ _ _ Es). }
    destruct (c =? 123) eqn:C123.
    { cbn [scan_once app] in *. rewrite C34, C123 in *.
      destruct (skip_ws r0) as [|c' r'] eqn:Ew; [discriminate|].
      rewrite (skip_ws_app _ t _ _ Ew).
      destruct (c' =? 125). { now injection E as <- <-. }
      destruct (c' =? 34); [|discriminate].
      destruct (JSONObject fuel r') as [[ps r'']|] eqn:Eo; [|discriminate].
      injection E as <- <-. now rewrite (IHo _ _ _ Eo). }
    destruct (c =? 91) eqn:C91.
    { cbn [scan_once app] in *. rewrite C34, C123, C91 in *.
      destruct (skip_ws r0) as [|c' r'] eqn:Ew; [discriminate|].
      rewrite (skip_ws_app _ t _ _ Ew).
      destruct (c' =? 93). { now injection E as <- <-. }
      destruct (JSONArray fuel (c' :: r')) as [[vs r'']|] eqn:Ea; [|discriminate].
      injection E as <- <-.
      change (c' :: r' ++ t) with ((c' :: r') ++ t). now rewrite (IHa _ _ _ Ea). }
    now apply scan_once_atom_app.
  - (* JSONArray *)
    intros s vs r E. cbn [JSONArray] in *.
    destruct (scan_once fuel s) as [[v r0]|] eqn:Ev; [|discriminate].
    rewrite (IHs _ _ _ Ev).
    destruct (skip_ws r0) as [|c r'] eqn:Ew; [discriminate|].
    rewrite (skip_ws_app _ t _ _ Ew).
    destruct (c =? 93). { now injection E as <- <-. }
    destruct (c =? 44); [|discriminate].
    destruct (JSONArray fuel (skip_ws r')) as [[vs' r'']|] eqn:Ea; [|discriminate].
    injection E as <- <-.
    destruct (skip_ws r') as [|c' r1] eqn:Ew'.
    { now rewrite JSONArray_nil in Ea. }
    rewrite (skip_ws_app _ t _ _ Ew').
    change (c' :: r1 ++ t) with ((c' :: r1) ++ t). now rewrite (IHa _ _ _ Ea).
  - (* JSONObject *)
    intros s ps r E. cbn [JSONObject] in *.
    destruct (scanstring s) as [[key r0]|] eqn:Ek; [|discriminate].
    rewrite (scanstring_app _ _ _ _ Ek).
    destruct (skip_ws r0) as [|c r1] eqn:Ew; [discriminate|].
    rewrite (skip_ws_app _ t _ _ Ew).
    destruct (c =? 58); [|discriminate].
    destruct (scan_once fuel (skip_ws r1)) as [[v r2]|] eqn:Ev; [|discriminate].
    rewrite (skip_ws_app_scanned _ _ _ _ Ev), (IHs _ _ _ Ev).
    destruct (skip_ws r2) as [|c2 r3] eqn:Ew2; [discriminate|].
    rewrite (skip_ws_app _ t _ _ Ew2).
    destruct (c2 =? 125). { now injection E as <- <-. }
    destruct (c2 =? 44); [|discriminate].
    destruct (skip_ws r3) as [|c3 r4] eqn:Ew3; [discriminate|].
    rewrite (skip_ws_app _ t _ _ Ew3).
    destruct (c3 =? 34); [|discriminate].
    destruct (JSONObject fuel r4) as [[ps' r5]|] eqn:Eo; [|discriminate].
    injection E as <- <-. now rewrite (IHo _ _ _ Eo).
Qed.

End Padding.

(** *** Bytes *)

Lemma utf8_decode_app bs bs' s' : forall s,
  utf8_decode bs = Some s -> utf8_decode bs' = Some s' ->
  utf8_decode (bs ++ bs') = Some (s ++ s').
Proof.
  induction bs as [bs IH] using length_ind.
  intros s E E'. destruct bs as [|b0 r]; [now injection E as <-|].
  cbn [utf8_decode app] in *.
  assert (forall c r', (List.length r' < List.length (b0 :: r))%nat ->
            cons_opt c (utf8_decode r') = Some s ->
            cons_opt c (utf8_decode (r' ++ bs')) = Some (s ++ s')) as K.
  { intros c r' L E0. apply cons_opt_Some in E0 as (s0 & E1 & ->).
    now rewrite (IH r' L s0 E1 E'). }
  destruct (b0 <? 0x80). { apply K; [cbn; lia|exact E]. }
  destruct (b0 <? 0xC0); [discriminate|].
  destruct (b0 <? 0xE0).
  { destruct r as [|b1 r1]; [discriminate|]. cbn [app].
    match type of E with (if ?c then _ else _) = _ => destruct c end;
      [|discriminate].
    apply K; [cbn; lia|exact E]. }
  destruct (b0 <? 0xF0).
  { destruct r as [|b1 [|b2 r2]]; try discriminate. cbn [app].
    match type of E with (if ?c then _ else _) = _ => destruct c end;
      [|discriminate].
    apply K; [cbn; lia|exact E]. }
  destruct (b0 <? 0xF8); [|discriminate].
  destruct r as [|b1 [|b2 [|b3 r3]]]; try discriminate. cbn [app].
  match type of E with (if ?c then _ else _) = _ => destruct c end;
    [|discriminate].
  apply K; [cbn; lia|exact E].
Qed.

Lemma is_ws_ascii c : is_ws c = true -> is_ascii c = true.
Proof. intros H. apply is_ws_cases in H as [->|[->|[->| ->]]]; reflexivity. Qed.

Lemma blank_ascii w : forallb is_ws w = true -> forallb is_ascii w = true.
Proof.
  induction w as [|c w IH]; [reflexivity|]. cbn [forallb]. intros H.
  apply andb_true_iff in H as [Hc Hw]. now rewrite (is_ws_ascii _ Hc), IH.
Qed.

Lemma utf8_decode_blank w : forallb is_ws w = true -> utf8_decode w = Some w.
Proof. intros H. now apply utf8_decode_ascii, blank_ascii. Qed.

Section Decode.
Context {F : PyFloat}.

(** White space around the text changes nothing. *)
Lemma decode_padding (s w1 w2 : pystr) (v : value F) :
  forallb is_ws w1 = true -> forallb is_ws w2 = true ->
  decode s = Some v -> decode (w1 ++ s ++ w2) = Some v.
Proof.
  intros H1 H2. unfold decode.
  destruct (scan_once (S (List.length s)) (skip_ws s)) as [[v' r]|] eqn:Es;
    [|discriminate].
  destruct (skip_ws r) eqn:Er; [|discriminate]. intros [= ->].
  destruct (scanner_app w2 (blank_number_stop _ H2) (S (List.length s)))
    as (H & _ & _).
  assert (skip_ws (w1 ++ s ++ w2) = skip_ws s ++ w2) as Ew.
  { rewrite skip_ws_blank by exact H1.
    exact (skip_ws_app_scanned _ _ _ _ _ Es). }
  apply H in Es.
  rewrite <- Ew in Es. rewrite (decode_fuel_is_enough _ _ _ _ Es).
  apply skip_ws_is_blank in Er.
  rewrite skip_ws_blank by exact Er. now rewrite skip_ws_all_blank.
Qed.

(** A text of white space only is no JSON. *)
Lemma decode_blank (w : pystr) :
  forallb is_ws w = true -> decode (F := F) w = None.
Proof.
  intros H. unfold decode. rewrite skip_ws_all_blank by exact H. reflexivity.
Qed.

End Decode.

Lemma forallb_map_eq {A B} (p : B -> bool) (g : A -> B) l :
  forallb p (map g l) = forallb (fun x => p (g x)) l.
Proof. induction l as [|x l IH]; [reflexivity|]. cbn. now rewrite IH. Qed.

Section Loads.
Context {F : PyFloat}.

Lemma loads_padding (b p1 p2 : list byte) (v : value F) :
  forallb is_ws_byte p1 = true -> forallb is_ws_byte p2 = true ->
  loads b = inr v -> loads (p1 ++ b ++ p2) = inr v.
Proof.
  intros H1 H2. unfold loads. rewrite !map_app.
  unfold is_ws_byte in *. rewrite <- forallb_map_eq in H1, H2.
  destruct (utf8_decode (map Byte.to_N b)) as [s|] eqn:Eu; [|discriminate].
  rewrite (utf8_decode_app _ _ _ _ (utf8_decode_blank _ H1)
             (utf8_decode_app _ _ _ _ Eu (utf8_decode_blank _ H2))).
  destruct (decode s) as [v'|] eqn:Ed; [|discriminate]. intros [= ->].
  now rewrite (decode_padding _ _ _ _ H1 H2 Ed).
Qed.

Lemma loads_blank (b : list byte) :
  forallb is_ws_byte b = true -> loads (F := F) b = inl JSONDecodeError.
Proof.
  intros H. unfold loads. unfold is_ws_byte in H.
  rewrite <- forallb_map_eq in H.
  now rewrite (utf8_decode_blank _ H), (decode_blank _ H).
Qed.

Lemma ascii_text_dumps (laws : PyFloatLaws F) (v : value F) indent :
  ascii_text (dumps v indent) = true.
Proof.
  unfold ascii_text, dumps.
  change (fun b => Byte.to_N b <? 128) with (fun b => is_ascii (Byte.to_N b)).
  rewrite <- forallb_map_eq.
  rewrite bytes_of_to_string; now apply is_ascii_iterencode.
Qed.

End Loads.

End JsonPadding.

(** * The script with the model of the library *)

(** The script ended with the exit code 0 and one line of output: the
    header passed the three checks and the line is the chunk as
    [json.dumps] writes it. *)
Lemma run_exit0_inv {lib : JsonLib} fs prog path rest content t :
  fs path = Some content ->
  run fs (prog :: path :: rest) = mkResult (Exit 0) [t] [path] ->
  exists h v,
    unpack_IIIII (firstn 20 content) = Some h
    /\ magic h = 0x46546C67 /\ version h = 2 /\ chunkType h = 0x4E4F534A
    /\ json_loads (byte_range content 20 (20 + chunkLength h)) = inr v
    /\ t = json_dumps v 2.
Proof.
  intros Hfs R. rewrite (run_file _ _ _ _ _ Hfs) in R.
  destruct (Nat.lt_ge_cases (List.length content) 20) as [L|L].
  { rewrite read_header_short in R by exact L. discriminate. }
  destruct (unpack_total (firstn 20 content)) as [h Hh].
  { rewrite length_firstn. lia. }
  rewrite (read_header_ok _ _ _ Hh) in R. exists h.
  destruct (Z.eqb_spec (magic h) 0x46546C67) as [Hm|]; [|discriminate].
  destruct (Z.eqb_spec (version h) 2) as [Hv|]; [|discriminate].
  destruct (Z.eqb_spec (chunkType h) 0x4E4F534A) as [Hc|]; [|discriminate].
  cbn [negb] in R. destruct (json_loads _) as [e|v] eqn:Ej; [discriminate|].
  cbn in R. injection R as <-. now exists v.
Qed.



Section Model.
Variable F : PyJson.PyFloat.
Variable fs : filesystem.
Variables prog path : string.
Variable rest : list string.


(** X8.  An empty chunk is no JSON.  When the header passes the three
    checks and the bytes of the chunk are white space only, or there are
    none (a [chunkLength] of 0, or a file that ends with its header),
    [json.loads] raises [JSONDecodeError], which nobody catches; nothing
    is printed. *)
Theorem blank_chunk_is_rejected content h :
  fs path = Some content ->
  unpack_IIIII (firstn 20 content) = Some h ->
  magic h = 0x46546C67 -> version h = 2 -> chunkType h = 0x4E4F534A ->
  forallb is_ws_byte (byte_range content 20 (20 + chunkLength h)) = true ->
  run (lib := PyJson.lib F) fs (prog :: path :: rest)
  = mkResult (Uncaught (JsonError JSONDecodeError)) [] [path].
Proof.
  intros Hfs Hh Hm Hv Hc Hb.
  rewrite (run_file _ _ _ _ _ Hfs), (read_header_ok _ _ _ Hh), Hm, Hv, Hc.
  cbn [json_loads json_dumps PyJson.lib negb Z.eqb Pos.eqb].
  now rewrite (JsonPadding.loads_blank _ Hb).
Qed.

(** X9.  Whatever the script prints is ASCII: the four messages are, and
    [json.dumps] writes every character outside ASCII as an escape. *)
Theorem printed_text_is_ascii (args : list string) :
  PyJson.PyFloatLaws F ->
  forallb ascii_text
    (res_stdout (run (lib := PyJson.lib F) fs (prog :: args))) = true.
Proof.
  intros laws.
  destruct (run_cases (lib := PyJson.lib F) fs prog args); try reflexivity.
  cbn [res_stdout forallb json_dumps PyJson.lib].
  now rewrite (JsonPadding.ascii_text_dumps laws).
Qed.

End Model.


Lemma blank_chunk_is_rejected_witness :
  run (lib := zlib) (fs_with "a.glb" header_only) argv
  = mkResult (Uncaught (JsonError JSONDecodeError)) [] ["a.glb"%string].
Proof.
  apply (blank_chunk_is_rejected PyJson.ZFloat (fs_with "a.glb" header_only)
           "./print_glb_header.py" "a.glb" [] header_only
           (mkHeader 0x46546C67 2 20 14 0x4E4F534A));
    vm_compute; reflexivity.
Defined.

Lemma printed_text_is_ascii_witness :
  forallb ascii_text
    (res_stdout (run (lib := zlib) (fs_with "a.glb" good) argv)) = true.
Proof.
  apply (printed_text_is_ascii PyJson.ZFloat (fs_with "a.glb" good)
           "./print_glb_header.py" ["a.glb"%string] JsonFacts.ZFloat_laws).
Defined.

(** * Further properties of the script *)

(** X2.  Whatever the arguments and the files are, the script ends in one
    of eight ways: the usage line, the error of [open], the error of
    [struct.unpack], one of the three messages of the checks, the error of
    [json.loads], or the chunk printed. *)
Theorem run_outcomes {lib : JsonLib} (fs : filesystem) (prog : string)
    (args : list string) :
  outcome (run fs (prog :: args)).
Proof. apply run_cases. Qed.


(** X4.  A file that cannot be opened: the error of [open] is not caught,
    and nothing is printed. *)
Theorem missing_file_is_uncaught {lib : JsonLib} (fs : filesystem)
    (prog path : string) (rest : list string) :
  fs path = None ->
  run fs (prog :: path :: rest) = mkResult (Uncaught (OSError path)) [] [path].
Proof. apply run_no_file. Qed.

Lemma missing_file_is_uncaught_witness :
  run (lib := zlib) (fs_with "a.glb" good)
    ["./print_glb_header.py"; "b.glb"]%string
  = mkResult (Uncaught (OSError "b.glb")) [] ["b.glb"%string].
Proof.
  apply (missing_file_is_uncaught (lib := zlib) (fs_with "a.glb" good)
           "./print_glb_header.py" "b.glb" []).
  reflexivity.
Defined.

(** ** The header as bytes *)

(** Bits that do not overlap add up. *)
Lemma lor_shiftl_add x y k :
  0 <= k -> 0 <= x < 2 ^ k -> Z.lor x (Z.shiftl y k) = x + y * 2 ^ k.
Proof.
  intros Hk Hx. rewrite <- Z.shiftl_mul_pow2 by lia.
  rewrite <- Z.add_lor_land.
  assert (Z.land x (Z.shiftl y k) = 0) as ->; [|lia].
  apply Z.bits_inj'. intros n Hn. rewrite Z.land_spec, Z.bits_0.
  destruct (Z.lt_ge_cases n k).
  - rewrite Z.shiftl_spec_low by lia. apply andb_false_r.
  - destruct (Z.eq_dec x 0) as [->|Hx0]; [now rewrite Z.bits_0|].
    rewrite (Z.bits_above_log2 x n); [reflexivity|lia|].
    apply Z.lt_le_trans with k; [|lia]. apply Z.log2_lt_pow2; lia.
Qed.

(** A field is the sum of its bytes, weighted by the powers of 256. *)
Lemma u32_le_sum a b c d :
  Py.u32_le a b c d
  = Py.byte_val a + 256 * Py.byte_val b + 65536 * Py.byte_val c
    + 16777216 * Py.byte_val d.
Proof.
  pose proof (byte_val_range a). pose proof (byte_val_range b).
  pose proof (byte_val_range c). pose proof (byte_val_range d).
  unfold Py.u32_le.
  rewrite (Z.shiftl_mul_pow2 (Py.byte_val c)) by lia.
  rewrite (lor_shiftl_add (Py.byte_val c * 2 ^ 16)) by lia.
  replace (Py.byte_val c * 2 ^ 16 + Py.byte_val d * 2 ^ 24)
    with ((Py.byte_val c + Py.byte_val d * 2 ^ 8) * 2 ^ 16) by lia.
  rewrite <- (Z.shiftl_mul_pow2 _ 16) by lia.
  rewrite (Z.shiftl_mul_pow2 (Py.byte_val b)) by lia.
  rewrite (lor_shiftl_add (Py.byte_val b * 2 ^ 8)) by lia.
  replace (Py.byte_val b * 2 ^ 8 + (Py.byte_val c + Py.byte_val d * 2 ^ 8) * 2 ^ 16)
    with ((Py.byte_val b + (Py.byte_val c + Py.byte_val d * 2 ^ 8) * 2 ^ 8) * 2 ^ 8)
    by lia.
  rewrite <- (Z.shiftl_mul_pow2 _ 8) by lia.
  rewrite lor_shiftl_add by lia. lia.
Qed.

Lemma u32_le_range a b c d : 0 <= Py.u32_le a b c d < 2 ^ 32.
Proof.
  pose proof (byte_val_range a). pose proof (byte_val_range b).
  pose proof (byte_val_range c). pose proof (byte_val_range d).
  rewrite u32_le_sum. lia.
Qed.

Lemma byte_val_inj a b : Py.byte_val a = Py.byte_val b -> a = b.
Proof.
  unfold Py.byte_val. intros H. apply N2Z.inj in H.
  pose proof (Byte.of_to_N a) as Ha. rewrite H, Byte.of_to_N in Ha.
  now injection Ha.
Qed.

Lemma u32_le_inj a b c d a' b' c' d' :
  Py.u32_le a b c d = Py.u32_le a' b' c' d' ->
  a = a' /\ b = b' /\ c = c' /\ d = d'.
Proof.
  rewrite !u32_le_sum.
  pose proof (byte_val_range a). pose proof (byte_val_range b).
  pose proof (byte_val_range c). pose proof (byte_val_range d).
  pose proof (byte_val_range a'). pose proof (byte_val_range b').
  pose proof (byte_val_range c'). pose proof (byte_val_range d').
  intros E. repeat split; apply byte_val_inj; lia.
Qed.

Lemma u32_le_tag a b c d a' b' c' d' :
  Py.u32_le a b c d = Py.u32_le a' b' c' d' <-> [a; b; c; d] = [a'; b'; c'; d'].
Proof.
  split.
  - intros E. apply u32_le_inj in E as (-> & -> & -> & ->). reflexivity.
  - now intros [= -> -> -> ->].
Qed.

Lemma unpack_fields buf h :
  unpack_IIIII buf = Some h ->
  exists a0 a1 a2 a3 b0 b1 b2 b3 c0 c1 c2 c3 d0 d1 d2 d3 e0 e1 e2 e3,
    buf = [a0; a1; a2; a3; b0; b1; b2; b3; c0; c1; c2; c3;
           d0; d1; d2; d3; e0; e1; e2; e3]
    /\ h = mkHeader (Py.u32_le a0 a1 a2 a3) (Py.u32_le b0 b1 b2 b3)
             (Py.u32_le c0 c1 c2 c3) (Py.u32_le d0 d1 d2 d3)
             (Py.u32_le e0 e1 e2 e3).
Proof.
  unfold unpack_IIIII.
  do 20 (destruct buf as [|? buf]; [discriminate|]).
  destruct buf; [|discriminate].
  intros [= <-]. repeat eexists.
Qed.

(** The three fields the script checks, as bytes of the file. *)
Lemma header_tags content h :
  unpack_IIIII (firstn 20 content) = Some h ->
  (magic h = 0x46546C67 <-> byte_range content 0 4 = tag_magic)
  /\ (version h = 2 <-> byte_range content 4 8 = tag_version)
  /\ (chunkType h = 0x4E4F534A <-> byte_range content 16 20 = tag_chunk).
Proof.
  intros Hh. pose proof (unpack_length _ _ Hh) as L.
  rewrite length_firstn in L.
  do 20 (destruct content as [|? content]; [cbn in L; lia|]).
  cbn [firstn] in Hh. injection Hh as <-. cbn [magic version chunkType].
  unfold byte_range, tag_magic, tag_version, tag_chunk.
  cbn [Z.sub Z.opp Z.add Z.pos_sub Pos.add Pos.succ Z.to_nat Pos.to_nat
       Pos.iter_op Nat.add skipn firstn list_byte_of_string
       list_ascii_of_string map byte_of_ascii].
  change 0x46546C67 with (Py.u32_le x67 x6c x54 x46).
  change 2 with (Py.u32_le x02 x00 x00 x00) at 1.
  change 0x4E4F534A with (Py.u32_le x4a x53 x4f x4e).
  rewrite !u32_le_tag. repeat split; auto.
Qed.

Ltac results :=
  repeat match goal with
  | |- _ /\ _ => split
  | |- _ <-> _ => split
  | |- ~ _ => intro
  | |- _ -> _ => intro
  | H : _ /\ _ |- _ => destruct H
  | H : _ \/ _ |- _ => destruct H
  | H : exists _, _ |- _ => destruct H
  | H : mkResult _ _ _ = mkResult _ _ _ |- _ =>
      unfold msg_magic, msg_version, msg_chunk in H; discriminate H
  | H : ?P, H' : ~ ?P |- _ => destruct (H' H)
  | |- ?x = ?x => reflexivity
  | |- _ => assumption
  end.

(** ** The checks as bytes *)

Section Tags.
Context {lib : JsonLib}.
Variable fs : filesystem.
Variables prog path : string.
Variable rest : list string.

(** X5.  The three checks compare bytes of the file.  On a file of at
    least 20 bytes the magic check fails exactly when the first four bytes
    are not the letters [glTF]; the version check is reached and fails
    exactly when they are and the bytes 4 to 7 are not [02 00 00 00]; the
    chunk check is reached and fails exactly when both are right and the
    bytes 16 to 19 are not the letters [JSON]; and [json.loads] is reached
    exactly when the three tags are there.  The bytes 8 to 15 take no part
    in the checks. *)
Theorem checks_compare_the_tags content :
  fs path = Some content ->
  (20 <= List.length content)%nat ->
  let r := run fs (prog :: path :: rest) in
  (r = mkResult (Exit 1) [msg_magic] [path]
     <-> byte_range content 0 4 <> tag_magic)
  /\ (r = mkResult (Exit 1) [msg_version] [path]
     <-> byte_range content 0 4 = tag_magic
         /\ byte_range content 4 8 <> tag_version)
  /\ (r = mkResult (Exit 1) [msg_chunk] [path]
     <-> byte_range content 0 4 = tag_magic
         /\ byte_range content 4 8 = tag_version
         /\ byte_range content 16 20 <> tag_chunk)
  /\ ((exists e, r = mkResult (Uncaught (JsonError e)) [] [path])
      \/ (exists v, r = mkResult (Exit 0) [json_dumps v 2] [path])
     <-> byte_range content 0 4 = tag_magic
         /\ byte_range content 4 8 = tag_version
         /\ byte_range content 16 20 = tag_chunk).
Proof.
  intros Hfs Hlen. cbv zeta.
  destruct (unpack_total (firstn 20 content)) as [h Hh].
  { rewrite length_firstn. lia. }
  destruct (header_tags _ _ Hh) as (Tm & Tv & Tc).
  rewrite (run_file _ _ _ _ _ Hfs), (read_header_ok _ _ _ Hh).
  rewrite <- Tm, <- Tv, <- Tc.
  destruct (Z.eqb_spec (magic h) 0x46546C67) as [Hm|Hm]; cbn [negb].
  2:{ cbn [finish stdout opened app]. results. }
  destruct (Z.eqb_spec (version h) 2) as [Hv|Hv]; cbn [negb].
  2:{ cbn [finish stdout opened app]. results. }
  destruct (Z.eqb_spec (chunkType h) 0x4E4F534A) as [Hc|Hc]; cbn [negb].
  2:{ cbn [finish stdout opened app]. results. }
  destruct (json_loads _) as [e|v]; cbn [finish stdout opened app]; results.
  - left. now exists e.
  - right. now exists v.
Qed.

End Tags.

Lemma checks_compare_the_tags_witness :
  run (lib := zlib) (fs_with "a.glb" bad_chunk) argv
  = mkResult (Exit 1) [msg_chunk] ["a.glb"%string].
Proof.
  destruct (checks_compare_the_tags (lib := zlib) (fs_with "a.glb" bad_chunk)
              "./print_glb_header.py" "a.glb" [] bad_chunk)
    as (_ & _ & [_ H] & _).
  - reflexivity.
  - vm_compute. lia.
  - apply H. vm_compute. repeat split; discriminate.
Defined.

Lemma unpack_fields_range buf h :
  unpack_IIIII buf = Some h ->
  0 <= magic h < 2 ^ 32 /\ 0 <= version h < 2 ^ 32
  /\ 0 <= totalLength h < 2 ^ 32 /\ 0 <= chunkLength h < 2 ^ 32
  /\ 0 <= chunkType h < 2 ^ 32.
Proof.
  intros E. apply unpack_fields in E.
  destruct E as (a0 & a1 & a2 & a3 & b0 & b1 & b2 & b3 & c0 & c1 & c2 & c3
                 & d0 & d1 & d2 & d3 & e0 & e1 & e2 & e3 & _ & ->).
  cbn [magic version totalLength chunkLength chunkType].
  repeat split; apply u32_le_range.
Qed.

(** X6.  The chunk follows the header.  Every field of the header is
    below [2 ^ 32] and not negative, so the end of the second slice never
    counts from the end of the file: the two slices of the script are the
    first [20 + chunkLength] bytes of the file, one after the other, and
    the chunk given to [json.loads] holds [chunkLength] bytes or what is
    left of the file after the header, whichever is less. *)
Theorem chunk_follows_the_header content h :
  unpack_IIIII (Py.slice content 0 20) = Some h ->
  0 <= chunkLength h < 2 ^ 32
  /\ Py.slice content 0 20 ++ Py.slice content 20 (20 + chunkLength h)
     = firstn (20 + Z.to_nat (chunkLength h)) content
  /\ Py.len (Py.slice content 20 (20 + chunkLength h))
     = Z.min (chunkLength h) (Py.len content - 20).
Proof.
  intros Hh. pose proof (unpack_fields_range _ _ Hh) as (_ & _ & _ & Hn & _).
  pose proof (unpack_length _ _ Hh) as L.
  rewrite slice_0_20 in *. rewrite length_firstn in L.
  split; [exact Hn|].
  rewrite slice_byte_range by lia.
  replace (Z.to_nat (20 + chunkLength h - 20)) with (Z.to_nat (chunkLength h))
    by lia.
  change (Z.to_nat 20) with 20%nat. split.
  - rewrite <- (firstn_skipn 20 (firstn (20 + _) content)).
    rewrite firstn_firstn, Nat.min_l by lia. f_equal.
    rewrite skipn_firstn_comm. f_equal. lia.
  - unfold Py.len. rewrite length_firstn, length_skipn. lia.
Qed.

Lemma chunk_follows_the_header_witness :
  0 <= 14 < 2 ^ 32
  /\ Py.slice good_with_bin 0 20 ++ Py.slice good_with_bin 20 (20 + 14)
     = firstn (20 + Z.to_nat 14) good_with_bin
  /\ Py.len (Py.slice good_with_bin 20 (20 + 14))
     = Z.min 14 (Py.len good_with_bin - 20).
Proof.
  apply (chunk_follows_the_header good_with_bin
           (mkHeader 0x46546C67 2 46 14 0x4E4F534A)).
  reflexivity.
Defined.
